(** * Email campaign service: upload handlers and test dispatch

    A shallow embedding of [backend/src/email/services/email.service.ts].

    The service is a thin layer of asynchronous calls to collaborators: the
    relational store (through an ORM and its transaction object), the
    templating client, the upload validators and the mail transport.  An
    [async] function is embedded as a computation in a state-and-exception
    monad over a [World] that holds the store, the state of the upload
    transaction, the outcomes the store will give to the coming persistence
    operations, and the trace of the calls made to the collaborators. *)

From Stdlib Require Import ZArith Ascii String List Bool Lia.
From stdpp Require Import base option list gmap strings sets.

Open Scope Z_scope.
Open Scope string_scope.
Open Scope list_scope.

(** ** Values *)

(** [CSVParams]: one CSV row, a JS object from column name to cell. *)
Abbreviation CSVParams := (gmap string string).

(** [ChannelType] of [@core/constants]. *)
Inductive ChannelType := SMS | Email.

Global Instance ChannelType_eq_dec : EqDecision ChannelType.
Proof. solve_decision. Defined.

(** What a call can throw.  [Error message] is [new Error(message)], the only
    exception this service raises itself; the other constructors are the
    failures of the collaborators, named after the error taxonomy. *)
Inductive exn :=
  | Error (message : string)
  | HeaderMismatch (missing : list string)
  | TemplateHydrationFailure (placeholder : string)
  | PersistenceFailure (message : string)
  | TransportFailure (message : string).

Inductive Result (A : Type) :=
  | Ok (a : A)
  | Throw (e : exn).
Arguments Ok {A} a.
Arguments Throw {A} e.

(** JS truthiness of a [string | void] or [string | null] value: absent and
    the empty string are falsy. *)
Definition truthy (v : option string) : bool :=
  match v with
  | Some s => negb (String.eqb s "")
  | None => false
  end.

(** ** Rows of the store *)

Record Campaign := {
  c_id : Z;
  c_userId : Z;
  c_type : ChannelType;
  c_credName : option string;
}.

(** [EmailTemplate]: the service reads [body], [subject] and [params] through
    [!] and [as string], so a template handed to it has them set. *)
Record EmailTemplate := {
  t_campaignId : Z;
  t_body : string;
  t_subject : string;
  t_params : list string;
  t_replyTo : option string;
}.

(** [MessageBulkInsertInterface]: a record built by the chunk handler, and
    the columns of a row of [EmailMessage] that this service writes and
    reads.  [recipient] is [entry['recipient']], absent when the row has no
    such column. *)
Record MessageBulkInsertInterface := {
  campaignId : Z;
  recipient : option string;
  params : CSVParams;
}.

Record ProtectedMessage := {
  p_campaignId : Z;
  p_id : string;
  p_payload : string;
  p_passwordHash : string;
}.

Record Store := {
  campaigns : list Campaign;
  email_templates : list EmailTemplate;
  email_messages : list MessageBulkInsertInterface;
  protected_messages : list ProtectedMessage;
}.

Record MailToSend := {
  recipients : list string;
  body : string;
  subject : string;
  replyTo : option string;
}.

Record HydratedMessage := {
  h_body : string;
  h_subject : string;
  h_replyTo : option string;
}.

(** ** The world of an asynchronous computation *)

(** A [Transaction] is handed to the handlers by their caller; it remembers
    the store it was begun on. *)
Record Transaction := { savepoint : Store }.

Inductive TxState := NoTransaction | Active | RolledBack | Committed.

Inductive Model := EmailMessageModel | ProtectedMessageModel.

(** The calls to collaborators, as they appear in the trace. *)
Inductive Event :=
  | EvCheckTemplateKeysMatch
  | EvTestHydration
  | EvDestroy (model : Model) (cid : Z)
  | EvBulkCreate (records : list MessageBulkInsertInterface)
  | EvStoreProtectedMessages (cid : Z) (data : list CSVParams)
  | EvCampaignUpdate (cid : Z)
  | EvRollback
  | EvCommit
  | EvSendMail (mail : MailToSend)
  | EvLoggerError.

(** [faults] lists what the store answers to the coming persistence
    operations, one entry per operation: [Some e] makes the operation fail
    with [e] and change nothing, [None] (or an exhausted list) lets it
    succeed. *)
Record World := {
  store : Store;
  tx_state : TxState;
  faults : list (option exn);
  trace : list Event;
}.

Definition M (A : Type) : Type := World -> Result A * World.

Definition ret {A} (a : A) : M A := fun w => (Ok a, w).

Definition throw {A} (e : exn) : M A := fun w => (Throw e, w).

Definition bind {A B} (c : M A) (k : A -> M B) : M B :=
  fun w =>
    match c w with
    | (Ok a, w') => k a w'
    | (Throw e, w') => (Throw e, w')
    end.

(** [try { body } catch (err) { handler }] *)
Definition try_catch {A} (body : M A) (handler : exn -> M A) : M A :=
  fun w =>
    match body w with
    | (Ok a, w') => (Ok a, w')
    | (Throw e, w') => handler e w'
    end.

Notation "'await' x ':=' c 'in' k" := (bind c (fun x => k))
  (at level 10, x name, c at level 99, k at level 200,
   format "'[v' 'await'  x  :=  c  'in' '/' k ']'").

Definition lift {A} (r : Result A) : M A := fun w => (r, w).

Definition traced (ev : Event) (w : World) : World :=
  {| store := store w; tx_state := tx_state w;
     faults := faults w; trace := trace w ++ [ev] |}.

(** A synchronous call to a validator, which returns or throws. *)
Definition call (ev : Event) (outcome : option exn) : M unit :=
  fun w =>
    match outcome with
    | Some e => (Throw e, traced ev w)
    | None => (Ok tt, traced ev w)
    end.

(** A promise, as the awaiting caller finds it. *)
Inductive Promise (A : Type) :=
  | Resolved (a : A)
  | Rejected (e : exn).
Arguments Resolved {A} a.
Arguments Rejected {A} e.

(** What the call of a promise-returning function does at the call itself:
    it throws, or it returns its promise. *)
Inductive CallOutcome (A : Type) :=
  | Threw (e : exn)
  | Returned (p : Promise A).
Arguments Threw {A} e.
Arguments Returned {A} p.

(** The call, inside the caller's control flow. *)
Definition invoke {A} (ev : Event) (outcome : CallOutcome A) : M (Promise A) :=
  fun w =>
    match outcome with
    | Threw e => (Throw e, traced ev w)
    | Returned p => (Ok p, traced ev w)
    end.

(** An [async] function that returns a promise settles as that promise does. *)
Definition settle {A} (p : Promise A) : M A :=
  match p with
  | Resolved a => ret a
  | Rejected e => throw e
  end.

Definition gets {A} (f : Store -> A) : M A := fun w => (Ok (f (store w)), w).

(** ** The persistence collaborator *)

(** A persistence operation: it is traced, takes its outcome from [faults],
    and applies [f] to the store when it succeeds. *)
Definition persist {A} (ev : Event) (f : Store -> A * Store) : M A :=
  fun w =>
    let tr := trace w ++ [ev] in
    match faults w with
    | Some e :: rest =>
        (Throw e, {| store := store w; tx_state := tx_state w;
                     faults := rest; trace := tr |})
    | None :: rest =>
        let '(a, s) := f (store w) in
        (Ok a, {| store := s; tx_state := tx_state w;
                  faults := rest; trace := tr |})
    | [] =>
        let '(a, s) := f (store w) in
        (Ok a, {| store := s; tx_state := tx_state w;
                  faults := []; trace := tr |})
    end.

Definition with_email_messages (s : Store) (ms : list MessageBulkInsertInterface) : Store :=
  {| campaigns := campaigns s; email_templates := email_templates s;
     email_messages := ms; protected_messages := protected_messages s |}.

Definition with_protected_messages (s : Store) (ps : list ProtectedMessage) : Store :=
  {| campaigns := campaigns s; email_templates := email_templates s;
     email_messages := email_messages s; protected_messages := ps |}.

Definition with_campaigns (s : Store) (cs : list Campaign) : Store :=
  {| campaigns := cs; email_templates := email_templates s;
     email_messages := email_messages s;
     protected_messages := protected_messages s |}.

(** [EmailMessage.findOne({ where: { campaignId } })]: the first row of the
    campaign. *)
Definition EmailMessage_findOne (cid : Z) (s : Store) : option MessageBulkInsertInterface :=
  List.find (fun m => Z.eqb (campaignId m) cid) (email_messages s).

(** The rows that are not of the campaign. *)
Definition without_campaign (cid : Z) (ms : list MessageBulkInsertInterface)
    : list MessageBulkInsertInterface :=
  List.filter (fun m => negb (Z.eqb (campaignId m) cid)) ms.

(** [EmailMessage.destroy({ where: { campaignId }, transaction })] *)
Definition EmailMessage_destroy (cid : Z) (transaction : Transaction) : M unit :=
  persist (EvDestroy EmailMessageModel cid)
    (fun s => (tt, with_email_messages s (without_campaign cid (email_messages s)))).

(** [ProtectedMessage.destroy({ where: { campaignId }, transaction })] *)
Definition ProtectedMessage_destroy (cid : Z) (transaction : Transaction) : M unit :=
  persist (EvDestroy ProtectedMessageModel cid)
    (fun s => (tt, with_protected_messages s
                     (List.filter (fun m => negb (Z.eqb (p_campaignId m) cid)) (protected_messages s)))).

(** [EmailMessage.bulkCreate(records, { transaction, ... })]: the records are
    appended in the order given. *)
Definition EmailMessage_bulkCreate (records : list MessageBulkInsertInterface)
    (transaction : Transaction) : M unit :=
  persist (EvBulkCreate records)
    (fun s => (tt, with_email_messages s (email_messages s ++ records))).

(** [Campaign.findOne({ where })]: the first campaign that satisfies the
    condition. *)
Definition Campaign_findOne (where_ : Campaign -> bool) (s : Store) : option Campaign :=
  List.find where_ (campaigns s).

(** [Campaign.update(values, { where })]: every campaign that satisfies the
    condition is replaced by [set] of it.  The call names no [returning]
    option, so the array it resolves with holds the number of affected rows
    and no rows; the answer is that number. *)
Definition Campaign_update (ev : Event) (set : Campaign -> Campaign)
    (where_ : Campaign -> bool) : M nat :=
  persist ev
    (fun s =>
       (List.length (List.filter where_ (campaigns s)),
        with_campaigns s
          (List.map (fun c => if where_ c then set c else c) (campaigns s)))).

(** [transaction.rollback()]: the store is back at the transaction's
    savepoint.  The handlers call it as [transaction?.rollback()] on a
    transaction that their signature declares present, and do not await it;
    its effect is taken at the call. *)
Definition rollback (transaction : Transaction) : M unit :=
  fun w => (Ok tt, {| store := savepoint transaction; tx_state := RolledBack;
                      faults := faults w; trace := trace w ++ [EvRollback] |}).

(** Modelled from the spec: the caller of the upload handlers, which is not
    part of the service.  It opens the single transaction that spans the
    preview phase and every chunk phase, and commits it when the last chunk
    is in. *)
Definition begin_transaction : M Transaction :=
  fun w => (Ok {| savepoint := store w |},
            {| store := store w; tx_state := Active;
               faults := faults w; trace := trace w |}).

Definition commit (transaction : Transaction) : M unit :=
  fun w => (Ok tt, {| store := store w; tx_state := Committed;
                      faults := faults w; trace := trace w ++ [EvCommit] |}).

(** ** The upload validator *)

(** Modelled from the spec: [UploadService.checkTemplateKeysMatch], which is
    not part of the service.  It fails with a header mismatch when the column
    set of the upload, read off the first row of the batch, does not cover
    every required key; a batch without a first row has no columns. *)
Definition checkTemplateKeysMatch (csvContent : list CSVParams)
    (templateParams : list string) : option exn :=
  let csvRecord : CSVParams := default ∅ (head csvContent) in
  match List.filter (fun key => negb (bool_decide (key ∈ dom csvRecord))) templateParams with
  | [] => None
  | missing => Some (HeaderMismatch missing)
  end.

(** ** The other collaborators *)

(** The collaborators whose code is outside the service, taken as they are
    called: [EmailTemplateService.getFilledTemplate], the templating client
    [EmailTemplateService.client.template] (it returns the hydrated text or
    throws), [EmailTemplateService.testHydration] (it returns or throws; its
    records are given by their [params], and [data[0]] is absent when the
    data are empty), the derivation behind
    [ProtectedService.storeProtectedMessages], and
    [MailService.mailClient.sendMail]. *)
Class Collaborators := {
  getFilledTemplate : Z -> Store -> option EmailTemplate;
  client_template : string -> CSVParams -> Result string;
  testHydration : list (option CSVParams) -> string -> string -> option exn;
  protect : Z -> list CSVParams -> list ProtectedMessage * list MessageBulkInsertInterface;
  sendMail : MailToSend -> CallOutcome (option string);
}.

Section EmailService.

Context `{Collaborators}.

(** Modelled from the spec: [ProtectedService.storeProtectedMessages], which
    is not part of the service.  It stores the protected records derived from
    the rows and returns the derived message records to insert; its failure
    is a persistence failure. *)
Definition ProtectedService_storeProtectedMessages (transaction : Transaction)
    (campaignId : Z) (data : list CSVParams) : M (list MessageBulkInsertInterface) :=
  persist (EvStoreProtectedMessages campaignId data)
    (fun s =>
       let '(protectedMessages, messages) := protect campaignId data in
       (messages, with_protected_messages s (protected_messages s ++ protectedMessages))).

(** ** The service *)

Definition getParams (campaignId : Z) : M (option CSVParams) :=
  await emailMessage := gets (EmailMessage_findOne campaignId) in
  match emailMessage with
  | None => ret None
  | Some emailMessage => ret (Some (params emailMessage))
  end.

Definition getHydratedMessage (campaignId : Z) : M (option HydratedMessage) :=
  await template := gets (getFilledTemplate campaignId) in
  await params := getParams campaignId in
  match template, params with
  | Some template, Some params =>
      await subject := lift (client_template (t_subject template) params) in
      await body := lift (client_template (t_body template) params) in
      ret (Some {| h_body := body; h_subject := subject;
                   h_replyTo := if truthy (t_replyTo template)
                                then t_replyTo template else None |})
  | _, _ => ret None
  end.

Definition getCampaignMessage (campaignId : Z) (recipient : string) : M (option MailToSend) :=
  await message := getHydratedMessage campaignId in
  match message with
  | Some message =>
      ret (Some {| recipients := [recipient];
                   body := h_body message;
                   subject := h_subject message;
                   replyTo := if truthy (h_replyTo message)
                              then h_replyTo message else None |})
  | None => ret None
  end.

(** The [try] block encloses the call of [sendMail] and the [return] of its
    promise; the promise settles after the block is left. *)
Definition sendEmail (mail : MailToSend) : M (option string) :=
  await returned :=
    try_catch
      (await promise := invoke (EvSendMail mail) (sendMail mail) in
       ret (Some promise))
      (fun e => await _ := call EvLoggerError None in ret None) in
  match returned with
  | Some promise => settle promise
  | None => ret None
  end.

(** [+campaignId] is the number itself. *)
Definition findCampaign (campaignId userId : Z) : M (option Campaign) :=
  gets (Campaign_findOne
          (fun c => Z.eqb (c_id c) campaignId && Z.eqb (c_userId c) userId
                    && bool_decide (c_type c = Email))).

Definition sendCampaignMessage (campaignId : Z) (recipient : string) : M unit :=
  await mail := getCampaignMessage campaignId recipient in
  match mail with
  | None => throw (Error "No message to send")
  | Some mail =>
      await isEmailSent := sendEmail mail in
      if negb (truthy isEmailSent)
      then throw (Error ("Could not send test email to " +:+ recipient))
      else ret tt
  end.

Definition setCampaignCredential (campaignId : Z) : M nat :=
  Campaign_update (EvCampaignUpdate campaignId)
    (fun c => {| c_id := c_id c; c_userId := c_userId c; c_type := c_type c;
                 c_credName := Some "EMAIL_DEFAULT" |})
    (fun c => Z.eqb (c_id c) campaignId).

Definition uploadCompleteOnPreview (transaction : Transaction)
    (template : EmailTemplate) (campaignId : Z) (data : list CSVParams) : M unit :=
  await _ := call EvCheckTemplateKeysMatch
               (checkTemplateKeysMatch data (t_params template)) in
  await _ := call EvTestHydration
               (testHydration [head data] (t_body template) (t_subject template)) in
  try_catch
    (EmailMessage_destroy campaignId transaction)
    (fun err => await _ := rollback transaction in throw err).

(** The [records] of [uploadCompleteOnChunk]. *)
Definition chunkRecords (campaignId : Z) (data : list CSVParams) : list MessageBulkInsertInterface :=
  List.map (fun entry => {| campaignId := campaignId;
                            recipient := entry !! "recipient";
                            params := entry |}) data.

Definition uploadCompleteOnChunk (transaction : Transaction)
    (campaignId : Z) (data : list CSVParams) : M unit :=
  try_catch
    (let records := chunkRecords campaignId data in
     EmailMessage_bulkCreate records transaction)
    (fun err => await _ := rollback transaction in throw err).

Definition PROTECTED_CSV_HEADERS : list string :=
  ["recipient"; "payload"; "passwordhash"; "id"].

Definition uploadProtectedCompleteOnPreview (transaction : Transaction)
    (template : EmailTemplate) (campaignId : Z) (data : list CSVParams) : M unit :=
  await _ := call EvCheckTemplateKeysMatch
               (checkTemplateKeysMatch data PROTECTED_CSV_HEADERS) in
  await _ := call EvTestHydration
               (testHydration [head data] (t_body template) (t_subject template)) in
  try_catch
    (ProtectedMessage_destroy campaignId transaction)
    (fun err => await _ := rollback transaction in throw err).

Definition uploadProtectedCompleteOnChunk (transaction : Transaction)
    (campaignId : Z) (data : list CSVParams) : M unit :=
  try_catch
    (await messages := ProtectedService_storeProtectedMessages transaction campaignId data in
     EmailMessage_bulkCreate messages transaction)
    (fun err => await _ := rollback transaction in throw err).

(** Modelled from the spec: the chunked reader that drives the handlers,
    which is not part of the service.  It calls the preview handler once,
    then the chunk handler once per chunk in the order of the file, and stops
    at the first error, which goes to its caller. *)
Fixpoint forEachChunk (onChunk : list CSVParams -> M unit)
    (chunks : list (list CSVParams)) : M unit :=
  match chunks with
  | [] => ret tt
  | chunk :: rest => await _ := onChunk chunk in forEachChunk onChunk rest
  end.

Definition upload (onPreview onChunk : Transaction -> list CSVParams -> M unit)
    (preview : list CSVParams) (chunks : list (list CSVParams)) : M unit :=
  await transaction := begin_transaction in
  await _ := onPreview transaction preview in
  await _ := forEachChunk (onChunk transaction) chunks in
  commit transaction.

(** The upload of a plain campaign and of a protected campaign: the reader
    with the handlers of each. *)
Definition uploadEmail (template : EmailTemplate) (campaignId : Z) :=
  upload (fun transaction => uploadCompleteOnPreview transaction template campaignId)
         (fun transaction => uploadCompleteOnChunk transaction campaignId).

Definition uploadProtected (template : EmailTemplate) (campaignId : Z) :=
  upload (fun transaction => uploadProtectedCompleteOnPreview transaction template campaignId)
         (fun transaction => uploadProtectedCompleteOnChunk transaction campaignId).

End EmailService.

(** ** A reference instance of the collaborators

    The statements below hold for every instance of [Collaborators]; this
    instance is the one the concrete runs are made with. *)

Definition on_ok (f : string -> string) (r : Result string) : Result string :=
  match r with
  | Ok s => Ok (f s)
  | Throw e => Throw e
  end.

(** Modelled from the spec: the templating client, which is not part of the
    service.  Every
    placeholder [{{key}}] of the text is replaced by the value of [key] in the
    parameters; a placeholder that the parameters do not have is a hydration
    failure.  [key] is the placeholder being read, if any. *)
Fixpoint hydrate (text : string) (key : option string) (params : CSVParams) : Result string :=
  match text with
  | EmptyString =>
      match key with
      | None => Ok EmptyString
      | Some k => Ok ("{{" +:+ k)
      end
  | String c rest =>
      match key with
      | None =>
          match rest with
          | String c' rest' =>
              if Ascii.eqb c "{"%char && Ascii.eqb c' "{"%char
              then hydrate rest' (Some EmptyString) params
              else on_ok (String c) (hydrate rest None params)
          | EmptyString => Ok (String c EmptyString)
          end
      | Some k =>
          match rest with
          | String c' rest' =>
              if Ascii.eqb c "}"%char && Ascii.eqb c' "}"%char
              then match params !! k with
                   | Some v => on_ok (String.append v) (hydrate rest' None params)
                   | None => Throw (TemplateHydrationFailure k)
                   end
              else hydrate rest (Some (k +:+ String c EmptyString)) params
          | EmptyString => Ok ("{{" +:+ k +:+ String c EmptyString)
          end
      end
  end.

Definition reference_template (text : string) (params : CSVParams) : Result string :=
  hydrate text None params.

(** Modelled from the spec: [EmailTemplateService.testHydration], which is
    not part of the service.  It is a trial render of the body and of the subject with the
    parameters of the first record. *)
Definition reference_testHydration (records : list (option CSVParams))
    (templateBody templateSubject : string) : option exn :=
  match records with
  | Some params :: _ =>
      match reference_template templateBody params with
      | Throw e => Some e
      | Ok _ =>
          match reference_template templateSubject params with
          | Throw e => Some e
          | Ok _ => None
          end
      end
  | _ => None
  end.

(** Modelled from the spec: [EmailTemplateService.getFilledTemplate], which
    is not part of the service.  It fetches the stored template of the
    campaign. *)
Definition reference_getFilledTemplate (campaignId : Z) (s : Store) : option EmailTemplate :=
  List.find (fun t => Z.eqb (t_campaignId t) campaignId) (email_templates s).

(** Modelled from the spec: the derivation of [ProtectedService], which is
    not part of the service.  One protected record and one message record per
    row. *)
Definition reference_protect (campaignId : Z) (data : list CSVParams)
    : list ProtectedMessage * list MessageBulkInsertInterface :=
  (List.map (fun entry => {| p_campaignId := campaignId;
                             p_id := default "" (entry !! "id");
                             p_payload := default "" (entry !! "payload");
                             p_passwordHash := default "" (entry !! "passwordhash") |}) data,
   List.map (fun entry => {| campaignId := campaignId;
                             recipient := entry !! "recipient";
                             params := entry |}) data).

(** The instance, for a transport that answers every mail with [outcome]. *)
Definition reference (outcome : CallOutcome (option string)) : Collaborators :=
  {| getFilledTemplate := reference_getFilledTemplate;
     client_template := reference_template;
     testHydration := reference_testHydration;
     protect := reference_protect;
     sendMail := fun _ => outcome |}.

(** ** Readings of a run *)

(** The error of the next persistence operation, if it is to fail. *)
Definition next_fault (w : World) : option exn :=
  match faults w with
  | Some e :: _ => Some e
  | _ => None
  end.

(** The first failure among the given outcomes. *)
Fixpoint first_fault (outcomes : list (option exn)) : option exn :=
  match outcomes with
  | [] => None
  | Some e :: _ => Some e
  | None :: rest => first_fault rest
  end.

(** The mails handed to the transport, in order. *)
Fixpoint transport_calls (tr : list Event) : list MailToSend :=
  match tr with
  | [] => []
  | EvSendMail mail :: rest => mail :: transport_calls rest
  | _ :: rest => transport_calls rest
  end.

Definition is_destroy (ev : Event) : bool :=
  match ev with
  | EvDestroy _ _ => true
  | _ => false
  end.

(** The events a run added to the trace. *)
Definition new_events (w w' : World) : list Event :=
  drop (length (trace w)) (trace w').

(** ** Sample data *)

Definition row_alex : CSVParams := {[ "recipient" := "a@x.com"; "name" := "Alex" ]}.
Definition row_bo : CSVParams := {[ "recipient" := "b@x.com"; "name" := "Bo" ]}.

Definition greeting : EmailTemplate :=
  {| t_campaignId := 1; t_body := "Hi {{name}}"; t_subject := "Welcome";
     t_params := ["recipient"; "name"]; t_replyTo := Some "ops@x.com" |}.

Definition empty_store : Store :=
  {| campaigns := []; email_templates := []; email_messages := [];
     protected_messages := [] |}.

Definition sample_store : Store :=
  {| campaigns := [ {| c_id := 1; c_userId := 7; c_type := Email; c_credName := None |};
                    {| c_id := 2; c_userId := 7; c_type := SMS; c_credName := Some "twilio" |} ];
     email_templates := [greeting];
     email_messages := [ {| campaignId := 1; recipient := Some "a@x.com"; params := row_alex |};
                         {| campaignId := 1; recipient := Some "b@x.com"; params := row_bo |} ];
     protected_messages := [] |}.

Definition world_of (s : Store) (fs : list (option exn)) : World :=
  {| store := s; tx_state := NoTransaction; faults := fs; trace := [] |}.

Definition delivered : CallOutcome (option string) := Returned (Resolved (Some "<id-1>")).

Definition sample_tx : Transaction := {| savepoint := sample_store |}.

Definition deadlock : exn := PersistenceFailure "deadlock detected".

Definition smtp_down : exn := TransportFailure "connection refused".

(** A row of a protected upload with a column beyond the four required. *)
Definition protected_row : CSVParams :=
  {[ "recipient" := "a@x.com"; "payload" := "0a1b2c"; "passwordhash" := "9f8e";
     "id" := "doc-1"; "name" := "Alex" ]}.

Definition protected_template : EmailTemplate :=
  {| t_campaignId := 3; t_body := "Your document is ready"; t_subject := "Document";
     t_params := []; t_replyTo := None |}.

(** A template that names a placeholder, zip, that the stored row of its
    campaign does not have. *)
Definition greeting_zip : EmailTemplate :=
  {| t_campaignId := 1; t_body := "Hi {{name}} of {{zip}}"; t_subject := "Welcome";
     t_params := ["name"; "zip"]; t_replyTo := None |}.

Definition zip_store : Store :=
  {| campaigns := []; email_templates := [greeting_zip];
     email_messages := [ {| campaignId := 1; recipient := Some "a@x.com";
                            params := row_alex |} ];
     protected_messages := [] |}.

(** ** Three statements as the specification words them *)

(** Hydration yields nothing when the stored template or the stored
    parameters of the campaign are absent, and a document when both are
    present. *)
Definition hydrates_whenever_stored `{Collaborators} (cid : Z) (w : World) : Prop :=
  ((getFilledTemplate cid (store w) = None \/
    (forall row, In row (email_messages (store w)) -> campaignId row <> cid)) ->
   getHydratedMessage cid w = (Ok None, w)) /\
  (forall t row,
      getFilledTemplate cid (store w) = Some t ->
      In row (email_messages (store w)) ->
      campaignId row = cid ->
      exists m, getHydratedMessage cid w = (Ok (Some m), w)).

(** Composition for a recipient renders the template against the parameters
    stored for that recipient. *)
Definition composes_with_recipient_params `{Collaborators} (cid : Z) (w : World) : Prop :=
  forall r row t mail,
    In row (email_messages (store w)) ->
    campaignId row = cid ->
    recipient row = Some r ->
    getFilledTemplate cid (store w) = Some t ->
    getCampaignMessage cid r w = (Ok (Some mail), w) ->
    client_template (t_body t) (params row) = Ok (body mail).

(** The preview handler of a protected upload accepts the CSV if and only if
    its header row is exactly the four protected columns. *)
Definition accepts_exact_protected_headers_only `{Collaborators}
    (tx : Transaction) (template : EmailTemplate) (cid : Z)
    (data : list CSVParams) (w : World) : Prop :=
  (uploadProtectedCompleteOnPreview tx template cid data w).1 = Ok tt <->
  exists row : CSVParams,
    head data = Some row /\
    dom row = (list_to_set PROTECTED_CSV_HEADERS : gset string).

(** * The database loader

    [sequelizeLoader] of the backend: it builds the connection options from
    the configuration, registers the models and synchronises the schema. *)

Module SequelizeLoader.

(** The values that the options hold. *)
Inductive JsValue :=
  | JsString (s : string)
  | JsBool (b : bool)
  | JsNumber (n : Z)
  | JsObject (reference : nat).

(** [config]: the parts the loader reads. *)
Record Config := {
  IS_PROD : bool;
  databaseUri : string;
  dialectOptions : gmap string JsValue;
  poolOptions : JsValue;
}.

Inductive Model :=
  | Credential | JobQueue | Campaign | User | Worker
  | EmailMessage | EmailTemplate
  | SmsMessage | SmsTemplate.

(** What the collaborators answer: the constructor and [addModels] return or
    throw, [sync] resolves or rejects. *)
Record Answers := {
  construct_throws : option exn;
  addModels_throws : option exn;
  sync_rejects : option exn;
}.

Inductive Step :=
  | NewSequelize (uri : string) (options : gmap string JsValue)
  | AddModels (models : list Model)
  | Sync
  | LoggerInfo (message : string)
  | LoggerError (prefix : string) (err : exn)
  | ProcessExit (code : Z).

(** How the returned promise ends: with the synchronised instance, with a
    rejection, or not at all because the process has exited. *)
Inductive Outcome :=
  | Resolves
  | Rejects (e : exn)
  | Exits (code : Z).

(** The options handed to the constructor: the three fixed entries, then the
    spread of [dialectOptions], whose entries replace fixed entries of the
    same name. *)
Definition options (config : Config) : gmap string JsValue :=
  let dialectOptions : gmap string JsValue :=
    if IS_PROD config then dialectOptions config else ∅ in
  dialectOptions ∪
    {[ "dialect" := JsString "postgres";
       "logging" := JsBool false;
       "pool" := poolOptions config ]}.

Definition coreModels : list Model := [Credential; JobQueue; Campaign; User; Worker].
Definition emailModels : list Model := [EmailMessage; EmailTemplate].
Definition smsModels : list Model := [SmsMessage; SmsTemplate].

Definition sequelizeLoader (config : Config) (answers : Answers) : list Step * Outcome :=
  let created := NewSequelize (databaseUri config) (options config) in
  match construct_throws answers with
  | Some e => ([created], Rejects e)
  | None =>
      let added := AddModels (coreModels ++ emailModels ++ smsModels) in
      match addModels_throws answers with
      | Some e => ([created; added], Rejects e)
      | None =>
          match sync_rejects answers with
          | None =>
              ([created; added; Sync; LoggerInfo "Database loaded."], Resolves)
          | Some err =>
              ([created; added; Sync;
                LoggerError "Unable to connect to database: " err; ProcessExit 1],
               Exits 1)
          end
      end
  end.

End SequelizeLoader.

(** * The image control of the rich-text editor *)

Module ImageControl.

(** The editor state, as far as the control reads it: the key of the block at
    the anchor of the selection, and the type of each block by key. *)
Record EditorState := {
  anchorKey : string;
  blockTypes : gmap string string;
}.

(** [isDisabled]; nothing when the content has no block for the anchor key,
    where [anchor.getType()] throws. *)
Definition isDisabled (editorState : EditorState) : option bool :=
  match blockTypes editorState !! anchorKey editorState with
  | Some anchorType =>
      Some (String.eqb anchorType "table-cell"
            || String.eqb anchorType "unordered-list-item"
            || String.eqb anchorType "ordered-list-item")
  | None => None
  end.

(** The callbacks of the properties, as calls made. *)
Inductive Call :=
  | OnExpandEvent
  | DoExpand
  | DoCollapse
  | OnChange (key : string) (vals : list string)
  | PreventDefault
  | StopPropagation.

(** [showPopover], the click handler of the wrapper. *)
Definition showPopover (editorState : EditorState) : option (list Call) :=
  match isDisabled editorState with
  | Some disabled => Some (if negb disabled then [OnExpandEvent] else [])
  | None => None
  end.

(** [cx('rdw-option-wrapper', { 'rdw-option-disabled': isDisabled() })]: the
    class names of the wrapper. *)
Definition wrapperClassNames (editorState : EditorState) : option (list string) :=
  match isDisabled editorState with
  | Some disabled =>
      Some ("rdw-option-wrapper" :: if disabled then ["rdw-option-disabled"] else [])
  | None => None
  end.

(** [{expanded && <ImageForm .../>}] *)
Definition showsForm (expanded : bool) (editorState : EditorState) : option bool :=
  match isDisabled editorState with
  | Some _ => Some expanded
  | None => None
  end.

(** [ImageForm]: its state is the text of the input, [imgSrc], initially
    empty. *)
Inductive FormEvent :=
  | InputChange (value : string)
  | Submit
  | Click.

Definition initialImgSrc : string := "".

(** One event: the state after it and the calls it makes. *)
Definition handle (imgSrc : string) (ev : FormEvent) : string * list Call :=
  match ev with
  | InputChange value => (value, [])
  | Submit => (imgSrc, [PreventDefault; OnChange imgSrc ["auto"; "100%"; ""]])
  | Click => (imgSrc, [StopPropagation])
  end.

Fixpoint handleAll (imgSrc : string) (events : list FormEvent) : string * list Call :=
  match events with
  | [] => (imgSrc, [])
  | ev :: rest =>
      let '(imgSrc', calls) := handle imgSrc ev in
      let '(final, calls') := handleAll imgSrc' rest in
      (final, calls ++ calls')
  end.

(** [disabled={!imgSrc}] of the Add button. *)
Definition addDisabled (imgSrc : string) : bool := String.eqb imgSrc "".

(** The text of the last input change among the events, if any. *)
Fixpoint lastTyped (events : list FormEvent) : option string :=
  match events with
  | [] => None
  | InputChange value :: rest =>
      match lastTyped rest with
      | Some later => Some later
      | None => Some value
      end
  | _ :: rest => lastTyped rest
  end.

End ImageControl.

(** * Properties *)

(** ** The persistence collaborator and the trace *)

Lemma persist_ok {A} ev (f : Store -> A * Store) w :
  next_fault w = None ->
  persist ev f w =
    (Ok (f (store w)).1,
     {| store := (f (store w)).2; tx_state := tx_state w;
        faults := tail (faults w); trace := trace w ++ [ev] |}).
Proof.
  unfold next_fault, persist. intros Hnf.
  destruct (faults w) as [|[e|] rest]; simpl; try discriminate;
    destruct (f (store w)); reflexivity.
Qed.

Lemma persist_fault {A} ev (f : Store -> A * Store) w e :
  next_fault w = Some e ->
  persist ev f w =
    (Throw e,
     {| store := store w; tx_state := tx_state w;
        faults := tail (faults w); trace := trace w ++ [ev] |}).
Proof.
  unfold next_fault, persist. intros Hnf.
  destruct (faults w) as [|[e'|] rest]; simpl; try discriminate.
  injection Hnf as ->. reflexivity.
Qed.

Lemma first_fault_next w n :
  first_fault (take (S n) (faults w)) =
    match next_fault w with
    | Some e => Some e
    | None => first_fault (take n (tail (faults w)))
    end.
Proof.
  unfold next_fault. destruct (faults w) as [|[e|] rest]; simpl; try reflexivity.
  destruct n; reflexivity.
Qed.

Lemma new_events_app w w' evs :
  trace w' = trace w ++ evs -> new_events w w' = evs.
Proof. unfold new_events. intros ->. apply drop_app_length. Qed.

Lemma with_email_messages_twice s a b :
  with_email_messages (with_email_messages s a) b = with_email_messages s b.
Proof. reflexivity. Qed.

Lemma with_email_messages_same s : with_email_messages s (email_messages s) = s.
Proof. destruct s; reflexivity. Qed.

(** ** The records of a chunk *)

Lemma chunkRecords_length cid data : length (chunkRecords cid data) = length data.
Proof. unfold chunkRecords. apply length_map. Qed.

Lemma chunkRecords_lookup cid (data : list CSVParams) (i : nat) entry :
  data !! i = Some entry ->
  chunkRecords cid data !! i =
    Some {| campaignId := cid; recipient := entry !! "recipient"; params := entry |}.
Proof.
  unfold chunkRecords. intros Hi.
  change (List.map ?f data) with (f <$> data).
  rewrite list_lookup_fmap, Hi. reflexivity.
Qed.

Lemma chunkRecords_recipient_count cid (data : list CSVParams) (r : option string) :
  length (filter (fun m => recipient m = r) (chunkRecords cid data)) =
  length (filter (fun entry : CSVParams => entry !! "recipient" = r) data).
Proof.
  induction data as [|entry data IH]; [reflexivity|].
  cbn [chunkRecords List.map]. fold (chunkRecords cid data).
  rewrite !filter_cons. cbn [recipient].
  destruct (decide (entry !! "recipient" = r)); cbn [length]; rewrite IH; reflexivity.
Qed.

Section Properties.

Context `{Collaborators}.

(** ** The chunk handler *)

Lemma uploadCompleteOnChunk_ok tx cid data w :
  next_fault w = None ->
  uploadCompleteOnChunk tx cid data w =
    (Ok tt,
     {| store := with_email_messages (store w)
                   (email_messages (store w) ++ chunkRecords cid data);
        tx_state := tx_state w; faults := tail (faults w);
        trace := trace w ++ [EvBulkCreate (chunkRecords cid data)] |}).
Proof.
  intros Hnf. unfold uploadCompleteOnChunk, try_catch, EmailMessage_bulkCreate.
  rewrite persist_ok by assumption. reflexivity.
Qed.

Lemma uploadCompleteOnChunk_fault tx cid data w e :
  next_fault w = Some e ->
  uploadCompleteOnChunk tx cid data w =
    (Throw e,
     {| store := savepoint tx; tx_state := RolledBack; faults := tail (faults w);
        trace := trace w ++ [EvBulkCreate (chunkRecords cid data)] ++ [EvRollback] |}).
Proof.
  intros Hnf. unfold uploadCompleteOnChunk, try_catch, EmailMessage_bulkCreate.
  rewrite (persist_fault _ _ _ e) by assumption.
  unfold bind, rollback, throw. cbn. rewrite <- app_assoc. reflexivity.
Qed.

(** C1. The plain-campaign chunk handler, on every chunk, makes exactly one
    bulk insert, of one record per row of the chunk, in the order of the
    rows: the record at each position has the recipient column of the row at
    that position and the whole row as its parameters.  Nothing is merged:
    for every recipient, as many records carry it as rows do.  When the
    insert goes through, the rows of the table are the rows it had followed
    by these records. *)
Theorem uploadCompleteOnChunk_one_record_per_row tx cid (data : list CSVParams) w :
  exists records,
    length records = length data /\
    (forall (i : nat) entry,
        data !! i = Some entry ->
        records !! i =
          Some {| campaignId := cid; recipient := entry !! "recipient";
                  params := entry |}) /\
    (forall r : string,
        length (filter (fun m => recipient m = Some r) records) =
        length (filter (fun entry : CSVParams => entry !! "recipient" = Some r) data)) /\
    (exists rest,
        new_events w (uploadCompleteOnChunk tx cid data w).2 = EvBulkCreate records :: rest /\
        (rest = [] \/ rest = [EvRollback])) /\
    (next_fault w = None ->
     exists w',
       uploadCompleteOnChunk tx cid data w = (Ok tt, w') /\
       email_messages (store w') = email_messages (store w) ++ records).
Proof.
  exists (chunkRecords cid data).
  split; [apply chunkRecords_length|].
  split; [intros i entry; apply chunkRecords_lookup|].
  split; [intros r; apply chunkRecords_recipient_count|].
  split.
  - destruct (next_fault w) as [e|] eqn:Hnf.
    + rewrite (uploadCompleteOnChunk_fault _ _ _ _ e) by assumption.
      exists [EvRollback]. split; [|auto]. apply new_events_app. reflexivity.
    + rewrite uploadCompleteOnChunk_ok by assumption.
      exists []. split; [|auto]. apply new_events_app. reflexivity.
  - intros Hnf. eexists. split; [apply uploadCompleteOnChunk_ok; assumption|].
    reflexivity.
Qed.

(** ** The preview handlers *)

Lemma uploadCompleteOnPreview_run tx template cid data w :
  uploadCompleteOnPreview tx template cid data w =
    match checkTemplateKeysMatch data (t_params template) with
    | Some e => (Throw e, traced EvCheckTemplateKeysMatch w)
    | None =>
        match testHydration [head data] (t_body template) (t_subject template) with
        | Some e =>
            (Throw e, traced EvTestHydration (traced EvCheckTemplateKeysMatch w))
        | None =>
            match next_fault w with
            | Some e =>
                (Throw e,
                 {| store := savepoint tx; tx_state := RolledBack;
                    faults := tail (faults w);
                    trace := trace w ++ [EvCheckTemplateKeysMatch; EvTestHydration;
                                         EvDestroy EmailMessageModel cid; EvRollback] |})
            | None =>
                (Ok tt,
                 {| store := with_email_messages (store w)
                               (without_campaign cid (email_messages (store w)));
                    tx_state := tx_state w; faults := tail (faults w);
                    trace := trace w ++ [EvCheckTemplateKeysMatch; EvTestHydration;
                                         EvDestroy EmailMessageModel cid] |})
            end
        end
    end.
Proof.
  unfold uploadCompleteOnPreview, bind, call.
  destruct (checkTemplateKeysMatch data (t_params template)); [reflexivity|].
  cbn. destruct (testHydration _ _ _); [reflexivity|].
  unfold try_catch, EmailMessage_destroy.
  destruct (next_fault (traced EvTestHydration (traced EvCheckTemplateKeysMatch w)))
    as [e|] eqn:Hnf.
  - rewrite (persist_fault _ _ _ e) by assumption.
    change (next_fault w = Some e) in Hnf. rewrite Hnf.
    unfold bind, rollback, throw. cbn. rewrite <- !app_assoc. reflexivity.
  - rewrite persist_ok by assumption.
    change (next_fault w = None) in Hnf. rewrite Hnf.
    cbn. rewrite <- !app_assoc. reflexivity.
Qed.

Lemma uploadProtectedCompleteOnPreview_run tx template cid data w :
  uploadProtectedCompleteOnPreview tx template cid data w =
    match checkTemplateKeysMatch data PROTECTED_CSV_HEADERS with
    | Some e => (Throw e, traced EvCheckTemplateKeysMatch w)
    | None =>
        match testHydration [head data] (t_body template) (t_subject template) with
        | Some e =>
            (Throw e, traced EvTestHydration (traced EvCheckTemplateKeysMatch w))
        | None =>
            match next_fault w with
            | Some e =>
                (Throw e,
                 {| store := savepoint tx; tx_state := RolledBack;
                    faults := tail (faults w);
                    trace := trace w ++ [EvCheckTemplateKeysMatch; EvTestHydration;
                                         EvDestroy ProtectedMessageModel cid; EvRollback] |})
            | None =>
                (Ok tt,
                 {| store := with_protected_messages (store w)
                               (List.filter (fun m => negb (Z.eqb (p_campaignId m) cid))
                                  (protected_messages (store w)));
                    tx_state := tx_state w; faults := tail (faults w);
                    trace := trace w ++ [EvCheckTemplateKeysMatch; EvTestHydration;
                                         EvDestroy ProtectedMessageModel cid] |})
            end
        end
    end.
Proof.
  unfold uploadProtectedCompleteOnPreview, bind, call.
  destruct (checkTemplateKeysMatch data PROTECTED_CSV_HEADERS); [reflexivity|].
  cbn. destruct (testHydration _ _ _); [reflexivity|].
  unfold try_catch, ProtectedMessage_destroy.
  destruct (next_fault (traced EvTestHydration (traced EvCheckTemplateKeysMatch w)))
    as [e|] eqn:Hnf.
  - rewrite (persist_fault _ _ _ e) by assumption.
    change (next_fault w = Some e) in Hnf. rewrite Hnf.
    unfold bind, rollback, throw. cbn. rewrite <- !app_assoc. reflexivity.
  - rewrite persist_ok by assumption.
    change (next_fault w = None) in Hnf. rewrite Hnf.
    cbn. rewrite <- !app_assoc. reflexivity.
Qed.

(** ** A whole upload *)

Lemma forEachChunk_plain tx cid chunks :
  forall w,
    match first_fault (take (length chunks) (faults w)) with
    | Some e =>
        exists w',
          forEachChunk (uploadCompleteOnChunk tx cid) chunks w = (Throw e, w') /\
          store w' = savepoint tx /\ tx_state w' = RolledBack /\
          last (trace w') = Some EvRollback
    | None =>
        exists w',
          forEachChunk (uploadCompleteOnChunk tx cid) chunks w = (Ok tt, w') /\
          store w' = with_email_messages (store w)
                       (email_messages (store w)
                        ++ concat (List.map (chunkRecords cid) chunks)) /\
          tx_state w' = tx_state w
    end.
Proof.
  induction chunks as [|chunk rest IH]; intros w.
  - cbn. exists w. rewrite app_nil_r, with_email_messages_same. auto.
  - cbn [length]. rewrite first_fault_next.
    cbn [forEachChunk]. unfold bind.
    destruct (next_fault w) as [e|] eqn:Hnf.
    + rewrite (uploadCompleteOnChunk_fault _ _ _ _ e) by assumption.
      eexists. split; [reflexivity|]. cbn.
      repeat split. rewrite last_app. reflexivity.
    + rewrite uploadCompleteOnChunk_ok by assumption.
      match goal with |- context [forEachChunk _ rest ?w1] => specialize (IH w1) end.
      cbn [faults] in IH.
      destruct (first_fault (take (length rest) (tail (faults w)))) as [e|].
      * exact IH.
      * destruct IH as (w' & Hrun & Hstore & Htx). exists w'.
        split; [exact Hrun|]. split; [|exact Htx].
        rewrite Hstore. cbn.
        unfold with_email_messages. cbn. rewrite <- app_assoc. reflexivity.
Qed.

Lemma uploadEmail_run template cid preview chunks w :
  checkTemplateKeysMatch preview (t_params template) = None ->
  testHydration [head preview] (t_body template) (t_subject template) = None ->
  uploadEmail template cid preview chunks w =
    let tx := {| savepoint := store w |} in
    match next_fault w with
    | Some e =>
        (Throw e,
         {| store := store w; tx_state := RolledBack; faults := tail (faults w);
            trace := trace w ++ [EvCheckTemplateKeysMatch; EvTestHydration;
                                 EvDestroy EmailMessageModel cid; EvRollback] |})
    | None =>
        match forEachChunk (uploadCompleteOnChunk tx cid) chunks
                {| store := with_email_messages (store w)
                              (without_campaign cid (email_messages (store w)));
                   tx_state := Active; faults := tail (faults w);
                   trace := trace w ++ [EvCheckTemplateKeysMatch; EvTestHydration;
                                        EvDestroy EmailMessageModel cid] |} with
        | (Ok _, w') => commit tx w'
        | (Throw e, w') => (Throw e, w')
        end
    end.
Proof.
  intros Hkeys Hhyd.
  unfold uploadEmail, upload, bind at 1, begin_transaction.
  unfold bind at 1. rewrite uploadCompleteOnPreview_run, Hkeys, Hhyd.
  change (next_fault {| store := store w; tx_state := Active;
                        faults := faults w; trace := trace w |})
    with (next_fault w).
  destruct (next_fault w); reflexivity.
Qed.

Lemma uploadProtectedCompleteOnChunk_fault tx cid data w e :
  first_fault (take 2 (faults w)) = Some e ->
  exists w',
    uploadProtectedCompleteOnChunk tx cid data w = (Throw e, w') /\
    store w' = savepoint tx /\ tx_state w' = RolledBack /\
    last (trace w') = Some EvRollback.
Proof.
  rewrite first_fault_next. intros Hff.
  unfold uploadProtectedCompleteOnChunk, try_catch, bind at 1,
    ProtectedService_storeProtectedMessages.
  destruct (next_fault w) as [e1|] eqn:Hnf.
  - injection Hff as ->. rewrite (persist_fault _ _ _ e) by assumption.
    eexists. split; [reflexivity|]. cbn. repeat split.
    rewrite last_app. reflexivity.
  - rewrite persist_ok by assumption. unfold EmailMessage_bulkCreate.
    assert (Hnf2 : forall s st tr,
               next_fault {| store := s; tx_state := st;
                             faults := tail (faults w); trace := tr |} = Some e).
    { intros s st tr. unfold next_fault. cbn [faults].
      destruct (tail (faults w)) as [|[e2|] rest]; cbn in Hff;
        rewrite ?take_0 in Hff; cbn in Hff; congruence. }
    rewrite (persist_fault _ _ _ e) by apply Hnf2.
    eexists. split; [reflexivity|]. cbn. repeat split.
    rewrite last_app. reflexivity.
Qed.

(** C2. Persistence failures undo the whole upload.  When the insert of a
    chunk fails, the chunk handler rolls the transaction back and rethrows
    the error: the store is the one the transaction was begun on.  So does
    the preview handler when its delete fails.  And for a whole upload of a
    plain campaign whose preview data pass validation, which makes one
    persistence operation for the preview delete and one per chunk: if any
    of them fails, the upload ends with the error of that operation, the
    transaction rolled back by the handler (the rollback is the last call
    made) and the store as it was before the upload, the preview delete and
    the chunks inserted so far undone; if none fails, the upload is committed
    with the rows of the campaign replaced by the records of all chunks. *)
Theorem upload_lands_entirely_or_not_at_all :
  (forall tx cid data w e,
      next_fault w = Some e ->
      exists w',
        uploadCompleteOnChunk tx cid data w = (Throw e, w') /\
        store w' = savepoint tx /\ tx_state w' = RolledBack /\
        last (trace w') = Some EvRollback) /\
  (forall tx template cid data w e,
      checkTemplateKeysMatch data (t_params template) = None ->
      testHydration [head data] (t_body template) (t_subject template) = None ->
      next_fault w = Some e ->
      exists w',
        uploadCompleteOnPreview tx template cid data w = (Throw e, w') /\
        store w' = savepoint tx /\ tx_state w' = RolledBack /\
        last (trace w') = Some EvRollback) /\
  (forall template cid preview chunks w,
      checkTemplateKeysMatch preview (t_params template) = None ->
      testHydration [head preview] (t_body template) (t_subject template) = None ->
      match first_fault (take (S (length chunks)) (faults w)) with
      | Some e =>
          exists w',
            uploadEmail template cid preview chunks w = (Throw e, w') /\
            store w' = store w /\
            tx_state w' = RolledBack /\
            last (trace w') = Some EvRollback
      | None =>
          exists w',
            uploadEmail template cid preview chunks w = (Ok tt, w') /\
            tx_state w' = Committed /\
            store w' = with_email_messages (store w)
                         (without_campaign cid (email_messages (store w))
                          ++ concat (List.map (chunkRecords cid) chunks))
      end).
Proof.
  split; [|split].
  - intros tx cid data w e Hnf.
    rewrite (uploadCompleteOnChunk_fault _ _ _ _ e) by assumption.
    eexists. split; [reflexivity|]. cbn. repeat split.
    rewrite last_app. reflexivity.
  - intros tx template cid data w e Hkeys Hhyd Hnf.
    rewrite uploadCompleteOnPreview_run, Hkeys, Hhyd, Hnf.
    eexists. split; [reflexivity|]. cbn. repeat split.
    rewrite last_app. reflexivity.
  - intros template cid preview chunks w Hkeys Hhyd.
    rewrite first_fault_next, uploadEmail_run by assumption. cbv zeta.
    destruct (next_fault w) as [e|] eqn:Hnf.
    + eexists. split; [reflexivity|]. cbn. repeat split.
      rewrite last_app. reflexivity.
    + match goal with
      | |- context [forEachChunk ?f chunks ?w1] =>
          pose proof (forEachChunk_plain {| savepoint := store w |} cid chunks w1) as Hloop
      end.
      cbn [faults] in Hloop.
      destruct (first_fault (take (length chunks) (tail (faults w)))) as [e|].
      * destruct Hloop as (w' & Hrun & Hstore & Htx & Hlast).
        exists w'. rewrite Hrun. auto.
      * destruct Hloop as (w' & Hrun & Hstore & Htx).
        rewrite Hrun. eexists. split; [reflexivity|].
        split; [reflexivity|]. cbn. rewrite Hstore. reflexivity.
Qed.

(** ** Validation comes before the delete *)

Lemma new_events_traced ev w : new_events w (traced ev w) = [ev].
Proof. apply new_events_app. reflexivity. Qed.

Lemma new_events_traced2 ev1 ev2 w :
  new_events w (traced ev2 (traced ev1 w)) = [ev1; ev2].
Proof. apply new_events_app. cbn. rewrite <- app_assoc. reflexivity. Qed.

Lemma destroy_after_validation (check hyd : option exn) (dev : Event)
    (w wf wo : World) r w' pre model c post :
  match check with
  | Some e => (Throw e, traced EvCheckTemplateKeysMatch w)
  | None =>
      match hyd with
      | Some e => (Throw e, traced EvTestHydration (traced EvCheckTemplateKeysMatch w))
      | None =>
          match next_fault w with
          | Some e => (Throw e, wf)
          | None => (Ok tt, wo)
          end
      end
  end = (r, w') ->
  trace wf = trace w ++ [EvCheckTemplateKeysMatch; EvTestHydration; dev; EvRollback] ->
  trace wo = trace w ++ [EvCheckTemplateKeysMatch; EvTestHydration; dev] ->
  new_events w w' = pre ++ EvDestroy model c :: post ->
  pre = [EvCheckTemplateKeysMatch; EvTestHydration] /\ check = None /\ hyd = None.
Proof.
  intros Hrun Hwf Hwo Hev.
  destruct check as [e|]; [|destruct hyd as [e|]; [|destruct (next_fault w) as [e|]]];
    injection Hrun as <- <-.
  - rewrite new_events_traced in Hev.
    destruct pre as [|? [|? ?]]; cbn in Hev; simplify_eq.
  - rewrite new_events_traced2 in Hev.
    destruct pre as [|? [|? [|? ?]]]; cbn in Hev; simplify_eq.
  - rewrite (new_events_app _ _ _ Hwf) in Hev.
    destruct pre as [|? [|? [|? [|? [|? ?]]]]]; cbn in Hev; simplify_eq; auto.
  - rewrite (new_events_app _ _ _ Hwo) in Hev.
    destruct pre as [|? [|? [|? [|? ?]]]]; cbn in Hev; simplify_eq; auto.
Qed.

(** C3. Both preview handlers, on every input.  When the header check fails,
    or it passes and the trial hydration of the first row fails, the handler
    ends with that error having issued no delete: the store, the state of the
    transaction and the pending persistence outcomes are as they were.  And
    on every run, a delete among the calls the handler made comes right after
    the header check and the trial hydration, both of which passed. *)
Theorem preview_validates_before_delete tx template cid data w :
  (forall e,
      checkTemplateKeysMatch data (t_params template) = Some e \/
      (checkTemplateKeysMatch data (t_params template) = None /\
       testHydration [head data] (t_body template) (t_subject template) = Some e) ->
      exists w',
        uploadCompleteOnPreview tx template cid data w = (Throw e, w') /\
        store w' = store w /\ tx_state w' = tx_state w /\ faults w' = faults w /\
        Forall (fun ev => is_destroy ev = false) (new_events w w')) /\
  (forall r w' pre model c post,
      uploadCompleteOnPreview tx template cid data w = (r, w') ->
      new_events w w' = pre ++ EvDestroy model c :: post ->
      pre = [EvCheckTemplateKeysMatch; EvTestHydration] /\
      checkTemplateKeysMatch data (t_params template) = None /\
      testHydration [head data] (t_body template) (t_subject template) = None) /\
  (forall e,
      checkTemplateKeysMatch data PROTECTED_CSV_HEADERS = Some e \/
      (checkTemplateKeysMatch data PROTECTED_CSV_HEADERS = None /\
       testHydration [head data] (t_body template) (t_subject template) = Some e) ->
      exists w',
        uploadProtectedCompleteOnPreview tx template cid data w = (Throw e, w') /\
        store w' = store w /\ tx_state w' = tx_state w /\ faults w' = faults w /\
        Forall (fun ev => is_destroy ev = false) (new_events w w')) /\
  (forall r w' pre model c post,
      uploadProtectedCompleteOnPreview tx template cid data w = (r, w') ->
      new_events w w' = pre ++ EvDestroy model c :: post ->
      pre = [EvCheckTemplateKeysMatch; EvTestHydration] /\
      checkTemplateKeysMatch data PROTECTED_CSV_HEADERS = None /\
      testHydration [head data] (t_body template) (t_subject template) = None).
Proof.
  split; [|split; [|split]].
  - intros e [Hk | [Hk Hh]]; rewrite uploadCompleteOnPreview_run, Hk, ?Hh;
      eexists; (split; [reflexivity|]); repeat split;
      rewrite ?new_events_traced, ?new_events_traced2; repeat constructor.
  - intros r w' pre model c post Hrun Hev.
    rewrite uploadCompleteOnPreview_run in Hrun.
    eapply destroy_after_validation; [exact Hrun | reflexivity | reflexivity | exact Hev].
  - intros e [Hk | [Hk Hh]]; rewrite uploadProtectedCompleteOnPreview_run, Hk, ?Hh;
      eexists; (split; [reflexivity|]); repeat split;
      rewrite ?new_events_traced, ?new_events_traced2; repeat constructor.
  - intros r w' pre model c post Hrun Hev.
    rewrite uploadProtectedCompleteOnPreview_run in Hrun.
    eapply destroy_after_validation; [exact Hrun | reflexivity | reflexivity | exact Hev].
Qed.

(** ** Hydration *)

Lemma getParams_run cid w :
  getParams cid w = (Ok (params <$> EmailMessage_findOne cid (store w)), w).
Proof.
  unfold getParams, bind, gets, ret.
  destruct (EmailMessage_findOne cid (store w)); reflexivity.
Qed.

Lemma getHydratedMessage_run cid w :
  getHydratedMessage cid w =
    (match getFilledTemplate cid (store w),
           params <$> EmailMessage_findOne cid (store w) with
     | Some t, Some p =>
         match client_template (t_subject t) p with
         | Ok s =>
             match client_template (t_body t) p with
             | Ok b =>
                 Ok (Some {| h_body := b; h_subject := s;
                             h_replyTo := if truthy (t_replyTo t)
                                          then t_replyTo t else None |})
             | Throw e => Throw e
             end
         | Throw e => Throw e
         end
     | _, _ => Ok None
     end, w).
Proof.
  unfold getHydratedMessage, bind at 1, gets. unfold bind at 1.
  rewrite getParams_run.
  destruct (getFilledTemplate cid (store w)) as [t|];
    destruct (params <$> EmailMessage_findOne cid (store w)) as [p|];
    try reflexivity.
  unfold bind, lift, ret.
  destruct (client_template (t_subject t) p); [|reflexivity].
  destruct (client_template (t_body t) p); reflexivity.
Qed.

Lemma getHydratedMessage_some_inv cid w m w' :
  getHydratedMessage cid w = (Ok (Some m), w') ->
  exists t p,
    getFilledTemplate cid (store w) = Some t /\
    params <$> EmailMessage_findOne cid (store w) = Some p /\
    client_template (t_subject t) p = Ok (h_subject m) /\
    client_template (t_body t) p = Ok (h_body m) /\
    h_replyTo m = (if truthy (t_replyTo t) then t_replyTo t else None).
Proof.
  rewrite getHydratedMessage_run. intros Hrun.
  destruct (getFilledTemplate cid (store w)) as [t|]; [|discriminate].
  destruct (params <$> EmailMessage_findOne cid (store w)) as [p|]; [|discriminate].
  destruct (client_template (t_subject t) p) as [s|] eqn:Hs; [|discriminate].
  destruct (client_template (t_body t) p) as [b|] eqn:Hb; [|discriminate].
  injection Hrun as <- <-. exists t, p. rewrite Hs, Hb. auto.
Qed.

Lemma findOne_first cid s before row after :
  email_messages s = before ++ row :: after ->
  campaignId row = cid ->
  Forall (fun m => campaignId m <> cid) before ->
  EmailMessage_findOne cid s = Some row.
Proof.
  unfold EmailMessage_findOne. intros -> Hrow Hbefore.
  induction Hbefore as [|m before Hm _ IH]; cbn.
  - apply Z.eqb_eq in Hrow. rewrite Hrow. reflexivity.
  - apply Z.eqb_neq in Hm. rewrite Hm. exact IH.
Qed.

Lemma findOne_none cid s :
  (forall row, In row (email_messages s) -> campaignId row <> cid) ->
  EmailMessage_findOne cid s = None.
Proof.
  unfold EmailMessage_findOne. intros Hnone.
  destruct (List.find _ (email_messages s)) as [row|] eqn:Hf; [|reflexivity].
  apply find_some in Hf as [Hin Hid]. apply Z.eqb_eq in Hid.
  exfalso. exact (Hnone row Hin Hid).
Qed.

Lemma findOne_some_first cid s row :
  EmailMessage_findOne cid s = Some row ->
  exists before after,
    email_messages s = before ++ row :: after /\
    campaignId row = cid /\
    Forall (fun m => campaignId m <> cid) before.
Proof.
  unfold EmailMessage_findOne. induction (email_messages s) as [|m l IH]; [discriminate|].
  cbn. destruct (Z.eqb_spec (campaignId m) cid) as [Heq|Hne].
  - intros [= ->]. exists [], l. auto.
  - intros Hf. destruct (IH Hf) as (before & after & -> & Hrow & Hb).
    exists (m :: before), after. auto.
Qed.

Lemma nonempty_or_nothing (o : option string) (a : string) :
  (if truthy o then o else None) = Some a <-> o = Some a /\ a <> "".
Proof.
  destruct o as [x|]; cbn.
  - destruct (String.eqb x "") eqn:He; cbn.
    + apply String.eqb_eq in He. subst x.
      split; [discriminate|]. intros [[= <-] Hne]. contradiction.
    + apply String.eqb_neq in He.
      split; [intros [= <-]; auto|intros [Ha _]; exact Ha].
  - split; [discriminate|]. intros [[=] _].
Qed.

(** C5, as amended.  Hydration yields nothing, a whole document or the
    error of the templating client, never a partial document.  When the
    stored template is absent or no message row of the campaign is stored,
    it yields nothing.  When both are present (the parameters are those of
    the first row of the campaign) and the client hydrates the subject and
    the body, it yields the document whose subject and body are these texts
    and whose reply-to is the non-empty reply-to of the template, if any;
    when the client throws on the subject, or on the body after the subject,
    hydration fails with that error and yields no document.  A document it
    yields always comes from a stored template and a stored row, with both
    texts the client's. *)
Theorem getHydratedMessage_nothing_whole_or_error cid w :
  (getFilledTemplate cid (store w) = None \/
   (forall row, In row (email_messages (store w)) -> campaignId row <> cid) ->
   getHydratedMessage cid w = (Ok None, w)) /\
  (forall t before row after,
      getFilledTemplate cid (store w) = Some t ->
      email_messages (store w) = before ++ row :: after ->
      campaignId row = cid ->
      Forall (fun m => campaignId m <> cid) before ->
      (forall s b,
          client_template (t_subject t) (params row) = Ok s ->
          client_template (t_body t) (params row) = Ok b ->
          exists m,
            getHydratedMessage cid w = (Ok (Some m), w) /\
            h_subject m = s /\ h_body m = b /\
            (forall a, h_replyTo m = Some a <-> t_replyTo t = Some a /\ a <> "")) /\
      (forall e,
          client_template (t_subject t) (params row) = Throw e \/
          (exists s, client_template (t_subject t) (params row) = Ok s /\
                     client_template (t_body t) (params row) = Throw e) ->
          getHydratedMessage cid w = (Throw e, w))) /\
  (forall m w',
      getHydratedMessage cid w = (Ok (Some m), w') ->
      w' = w /\
      exists t before row after,
        getFilledTemplate cid (store w) = Some t /\
        email_messages (store w) = before ++ row :: after /\
        campaignId row = cid /\
        Forall (fun m => campaignId m <> cid) before /\
        client_template (t_subject t) (params row) = Ok (h_subject m) /\
        client_template (t_body t) (params row) = Ok (h_body m) /\
        (forall a, h_replyTo m = Some a <-> t_replyTo t = Some a /\ a <> "")).
Proof.
  split; [|split].
  - rewrite getHydratedMessage_run. intros [-> | Hnone]; [reflexivity|].
    rewrite (findOne_none _ _ Hnone).
    destruct (getFilledTemplate cid (store w)); reflexivity.
  - intros t before row after Ht Hrows Hrow Hbefore.
    rewrite getHydratedMessage_run, Ht, (findOne_first _ _ _ _ _ Hrows Hrow Hbefore).
    cbn [fmap option_fmap option_map]. split.
    + intros s b -> ->. eexists. split; [reflexivity|]. cbn.
      split; [reflexivity|]. split; [reflexivity|].
      intros a. apply nonempty_or_nothing.
    + intros e [-> | (s & -> & ->)]; reflexivity.
  - intros m w' Hrun.
    assert (Hw : w' = w).
    { rewrite getHydratedMessage_run in Hrun. injection Hrun as _ <-. reflexivity. }
    subst w'. split; [reflexivity|].
    destruct (getHydratedMessage_some_inv _ _ _ _ Hrun) as (t & p & Ht & Hp & Hs & Hb & Hr).
    destruct (EmailMessage_findOne cid (store w)) as [row|] eqn:Hrow; [|discriminate].
    injection Hp as <-.
    destruct (findOne_some_first _ _ _ Hrow) as (before & after & Hrows & Hid & Hbefore).
    exists t, before, row, after. repeat (split; [assumption|]).
    intros a. rewrite Hr. apply nonempty_or_nothing.
Qed.

(** ** Composition *)

Lemma getCampaignMessage_run cid recipient w :
  getCampaignMessage cid recipient w =
    (match (getHydratedMessage cid w).1 with
     | Ok (Some message) =>
         Ok (Some {| recipients := [recipient];
                     body := h_body message;
                     subject := h_subject message;
                     replyTo := if truthy (h_replyTo message)
                                then h_replyTo message else None |})
     | Ok None => Ok None
     | Throw e => Throw e
     end, w).
Proof.
  unfold getCampaignMessage, bind. rewrite getHydratedMessage_run. cbn [fst].
  match goal with |- context [match ?r with Ok _ => _ | Throw _ => _ end] =>
    destruct r as [[m|]|e] end; reflexivity.
Qed.

Lemma find_first {A} (f : A -> bool) (l : list A) (x : A) :
  List.find f l = Some x ->
  exists before after,
    l = before ++ x :: after /\ f x = true /\ Forall (fun y => f y = false) before.
Proof.
  induction l as [|a l IH]; [discriminate|]. cbn.
  destruct (f a) eqn:Hfa.
  - intros [= ->]. exists [], l. auto.
  - intros Hfind. destruct (IH Hfind) as (before & after & -> & Hx & Hb).
    exists (a :: before), after. auto.
Qed.

(** C7, as amended.  Composition does not look the recipient up: it renders
    the template against the parameters of the first message row stored for
    the campaign, whoever the recipient is.  A message composed for one
    recipient and the message composed for any other recipient of the same
    campaign have the same body, subject and reply-to; the recipient is only
    the addressee. *)
Theorem getCampaignMessage_same_params_for_every_recipient cid r1 r2 w mail :
  getCampaignMessage cid r1 w = (Ok (Some mail), w) ->
  getCampaignMessage cid r2 w =
    (Ok (Some {| recipients := [r2]; body := body mail;
                 subject := subject mail; replyTo := replyTo mail |}), w) /\
  recipients mail = [r1] /\
  exists t row before after,
    getFilledTemplate cid (store w) = Some t /\
    email_messages (store w) = before ++ row :: after /\
    campaignId row = cid /\
    Forall (fun m => campaignId m <> cid) before /\
    client_template (t_body t) (params row) = Ok (body mail) /\
    client_template (t_subject t) (params row) = Ok (subject mail).
Proof.
  rewrite !getCampaignMessage_run. intros Hrun.
  destruct (getHydratedMessage cid w).1 as [[m|]|e] eqn:Hm; try discriminate.
  injection Hrun as <-. cbn. split; [reflexivity|]. split; [reflexivity|].
  destruct (getHydratedMessage cid w) as [r w'] eqn:Hh. cbn in Hm. subst r.
  destruct (getHydratedMessage_some_inv _ _ _ _ Hh) as (t & p & Ht & Hp & Hs & Hb & _).
  destruct (EmailMessage_findOne cid (store w)) as [row|] eqn:Hrow; [|discriminate].
  injection Hp as <-.
  apply find_first in Hrow as (before & after & Heq & Hcid & Hbefore).
  exists t, row, before, after. repeat split; auto.
  - apply Z.eqb_eq. exact Hcid.
  - eapply Forall_impl; [exact Hbefore|]. intros m' Hm'. apply Z.eqb_neq. exact Hm'.
Qed.

(** ** Dispatch *)

Lemma transport_calls_app tr1 tr2 :
  transport_calls (tr1 ++ tr2) = transport_calls tr1 ++ transport_calls tr2.
Proof.
  induction tr1 as [|ev tr1 IH]; [reflexivity|].
  destruct ev; cbn; rewrite IH; reflexivity.
Qed.

Lemma sendEmail_run mail w :
  sendEmail mail w =
    match sendMail mail with
    | Threw e => (Ok None, traced EvLoggerError (traced (EvSendMail mail) w))
    | Returned (Resolved v) => (Ok v, traced (EvSendMail mail) w)
    | Returned (Rejected e) => (Throw e, traced (EvSendMail mail) w)
    end.
Proof.
  unfold sendEmail, bind, try_catch, invoke, call, settle, ret, throw.
  destruct (sendMail mail) as [e|[v|e]]; reflexivity.
Qed.

Lemma sendCampaignMessage_run cid recipient w :
  sendCampaignMessage cid recipient w =
    match (getCampaignMessage cid recipient w).1 with
    | Throw e => (Throw e, w)
    | Ok None => (Throw (Error "No message to send"), w)
    | Ok (Some mail) =>
        match sendEmail mail w with
        | (Ok isEmailSent, w') =>
            if negb (truthy isEmailSent)
            then (Throw (Error ("Could not send test email to " +:+ recipient)), w')
            else (Ok tt, w')
        | (Throw e, w') => (Throw e, w')
        end
    end.
Proof.
  unfold sendCampaignMessage, bind at 1. rewrite getCampaignMessage_run. cbn [fst].
  match goal with |- context [match ?r with Ok _ => _ | Throw _ => _ end] =>
    destruct r as [[mail|]|e] end; try reflexivity.
  unfold bind. destruct (sendEmail mail w) as [[v|e] w']; [|reflexivity].
  destruct (negb (truthy v)); reflexivity.
Qed.

Lemma new_events_refl w : new_events w w = [].
Proof. unfold new_events. apply drop_all. Qed.


(** C10.  A rejection of the promise that the transport returns is not
    caught by [sendEmail]: the promise is returned from inside the [try]
    block without being awaited there, so [sendEmail] fails with the
    transport's own error, and dispatch fails with that error and not with
    the send-failed error. *)
Theorem sendEmail_rejection_escapes mail e w :
  sendMail mail = Returned (Rejected e) ->
  sendEmail mail w = (Throw e, traced (EvSendMail mail) w) /\
  (forall cid recipient,
      getCampaignMessage cid recipient w = (Ok (Some mail), w) ->
      sendCampaignMessage cid recipient w = (Throw e, traced (EvSendMail mail) w)).
Proof.
  intros Hsend. split.
  - rewrite sendEmail_run, Hsend. reflexivity.
  - intros cid recipient Hmail.
    rewrite sendCampaignMessage_run, Hmail. cbn [fst].
    rewrite sendEmail_run, Hsend. reflexivity.
Qed.

(** X6. An exception thrown by the call of the transport itself is caught:
    [sendEmail] logs it and returns no value, and dispatch fails with the
    send-failed error. *)
Lemma sendEmail_catches_synchronous_throw mail e w :
  sendMail mail = Threw e ->
  sendEmail mail w = (Ok None, traced EvLoggerError (traced (EvSendMail mail) w)) /\
  (forall cid recipient,
      getCampaignMessage cid recipient w = (Ok (Some mail), w) ->
      (sendCampaignMessage cid recipient w).1 =
        Throw (Error ("Could not send test email to " +:+ recipient))).
Proof.
  intros Hsend. split.
  - rewrite sendEmail_run, Hsend. reflexivity.
  - intros cid recipient Hmail.
    rewrite sendCampaignMessage_run, Hmail. cbn [fst].
    rewrite sendEmail_run, Hsend. reflexivity.
Qed.

(** ** Campaign lookup and credential *)

Lemma NoDup_map_inj {A B} (f : A -> B) (l : list A) (a b : A) :
  NoDup (List.map f l) -> In a l -> In b l -> f a = f b -> a = b.
Proof.
  induction l as [|x l IH]; [intros _ []|].
  cbn. intros Hnd Ha Hb Hfab. apply NoDup_cons in Hnd as [Hx Hnd].
  destruct Ha as [-> | Ha], Hb as [-> | Hb]; auto.
  - exfalso. apply Hx. rewrite Hfab. apply list_elem_of_In, in_map, Hb.
  - exfalso. apply Hx. rewrite <- Hfab. apply list_elem_of_In, in_map, Ha.
Qed.

Lemma campaign_condition c cid uid :
  Z.eqb (c_id c) cid && Z.eqb (c_userId c) uid && bool_decide (c_type c = Email) = true
  <-> c_id c = cid /\ c_userId c = uid /\ c_type c = Email.
Proof.
  rewrite !andb_true_iff, !Z.eqb_eq, bool_decide_eq_true. tauto.
Qed.

(** C6. [findCampaign] changes nothing and never fails.  It yields a campaign
    exactly when a stored campaign has the given id, the given user as owner
    and the channel type Email, and the campaign it yields is such a stored
    campaign.  When campaign ids are unique, it yields the stored campaign
    with the given id if and only if that campaign has the user as owner and
    the channel type Email.  In every other case the answer is the same
    empty result, whatever the reason. *)
Theorem findCampaign_owner_and_channel cid uid w :
  exists r,
    findCampaign cid uid w = (Ok r, w) /\
    (forall c, r = Some c ->
        In c (campaigns (store w)) /\
        c_id c = cid /\ c_userId c = uid /\ c_type c = Email) /\
    (is_Some r <->
       exists c, In c (campaigns (store w)) /\
                 c_id c = cid /\ c_userId c = uid /\ c_type c = Email) /\
    (NoDup (List.map c_id (campaigns (store w))) ->
     forall c, In c (campaigns (store w)) -> c_id c = cid ->
       (r = Some c <-> c_userId c = uid /\ c_type c = Email)) /\
    ((forall c, In c (campaigns (store w)) ->
        c_id c <> cid \/ c_userId c <> uid \/ c_type c <> Email) ->
     r = None).
Proof.
  unfold findCampaign, gets, Campaign_findOne.
  set (cond := fun c : Campaign => (_ : bool)). eexists. split; [reflexivity|].
  assert (Hsound : forall c, List.find cond (campaigns (store w)) = Some c ->
            In c (campaigns (store w)) /\
            c_id c = cid /\ c_userId c = uid /\ c_type c = Email).
  { intros c Hc. apply find_some in Hc as [Hin Hcond].
    split; [exact Hin|]. apply campaign_condition. exact Hcond. }
  assert (Hcomplete : forall c, In c (campaigns (store w)) ->
            c_id c = cid /\ c_userId c = uid /\ c_type c = Email ->
            is_Some (List.find cond (campaigns (store w)))).
  { intros c Hin Hc. destruct (List.find cond (campaigns (store w))) eqn:Hf; [eauto|].
    pose proof (find_none _ _ Hf c Hin) as Hn.
    apply campaign_condition in Hc. unfold cond in Hn. congruence. }
  split; [exact Hsound|]. split; [|split].
  - split.
    + intros [c Hc]. exists c. apply Hsound. exact Hc.
    + intros (c & Hin & Hc). eapply Hcomplete; eauto.
  - intros Hnd c Hin Hid. split.
    + intros Hc. apply Hsound in Hc. tauto.
    + intros Hc. destruct (Hcomplete c Hin) as [c' Hc']; [tauto|].
      rewrite Hc'. f_equal. destruct (Hsound c' Hc') as (Hin' & Hid' & _).
      eapply NoDup_map_inj; eauto. congruence.
  - intros Hnone. destruct (List.find cond (campaigns (store w))) as [c|] eqn:Hf; [|reflexivity].
    destruct (Hsound c eq_refl) as (Hin & Hid & Hu & Ht).
    destruct (Hnone c Hin) as [?|[?|?]]; contradiction.
Qed.

Lemma Campaign_update_lookup (set : Campaign -> Campaign) (where_ : Campaign -> bool)
    (cs : list Campaign) (i : nat) c :
  cs !! i = Some c ->
  List.map (fun c => if where_ c then set c else c) cs !! i =
    Some (if where_ c then set c else c).
Proof.
  intros Hi. change (List.map ?f cs) with (f <$> cs).
  rewrite list_lookup_fmap, Hi. reflexivity.
Qed.

(** C9. When the update goes through, [setCampaignCredential] leaves the
    campaigns in place and in number; the campaign with the given id has the
    credential name EMAIL_DEFAULT whatever it had before, with its id, owner
    and channel type unchanged; every other campaign is as it was; and
    nothing else in the store changes. *)
Theorem setCampaignCredential_binds_default cid w :
  next_fault w = None ->
  exists affected w',
    setCampaignCredential cid w = (Ok affected, w') /\
    length (campaigns (store w')) = length (campaigns (store w)) /\
    (forall (i : nat) c,
        campaigns (store w) !! i = Some c ->
        exists c',
          campaigns (store w') !! i = Some c' /\
          c_id c' = c_id c /\ c_userId c' = c_userId c /\ c_type c' = c_type c /\
          (c_id c = cid -> c_credName c' = Some "EMAIL_DEFAULT") /\
          (c_id c <> cid -> c' = c)) /\
    email_templates (store w') = email_templates (store w) /\
    email_messages (store w') = email_messages (store w) /\
    protected_messages (store w') = protected_messages (store w) /\
    tx_state w' = tx_state w.
Proof.
  intros Hnf. unfold setCampaignCredential, Campaign_update.
  rewrite persist_ok by assumption. cbn [fst snd].
  eexists _, _. split; [reflexivity|]. cbn [store tx_state with_campaigns campaigns
    email_templates email_messages protected_messages].
  split; [apply length_map|]. split; [|auto].
  intros i c Hi. eexists. split; [apply Campaign_update_lookup; exact Hi|].
  cbn beta. destruct (Z.eqb_spec (c_id c) cid) as [Heq|Hne]; cbn.
  - repeat split; auto. intros Hne. contradiction.
  - repeat split; auto. intros Heq. contradiction.
Qed.

(** ** The header check of a protected upload *)

Lemma filter_nil_iff {A} (f : A -> bool) (l : list A) :
  List.filter f l = [] <-> forall x, In x l -> f x = false.
Proof.
  induction l as [|a l IH]; cbn.
  - split; [intros _ x []|reflexivity].
  - destruct (f a) eqn:Hfa.
    + split; [discriminate|]. intros Hall. rewrite (Hall a) in Hfa; [discriminate|auto].
    + rewrite IH. split.
      * intros Hall x [<-|Hx]; auto.
      * intros Hall x Hx. apply Hall. auto.
Qed.

Lemma checkTemplateKeysMatch_covers (data : list CSVParams) (keys : list string) :
  checkTemplateKeysMatch data keys = None <->
  forall key, In key keys -> is_Some (default (∅ : CSVParams) (head data) !! key).
Proof.
  unfold checkTemplateKeysMatch.
  set (row := default ∅ (head data)).
  destruct (List.filter _ keys) as [|k missing] eqn:Hf.
  - split; [|reflexivity]. intros _ key Hkey.
    rewrite filter_nil_iff in Hf. specialize (Hf key Hkey).
    apply negb_false_iff, bool_decide_eq_true in Hf.
    apply elem_of_dom. exact Hf.
  - split; [discriminate|]. intros Hall. exfalso.
    assert (Hk : In k (List.filter (fun key => negb (bool_decide (key ∈ dom row))) keys))
      by (rewrite Hf; left; reflexivity).
    apply filter_In in Hk as [Hin Hk].
    apply negb_true_iff, bool_decide_eq_false in Hk.
    apply Hk, elem_of_dom, Hall, Hin.
Qed.

(** C8, as amended.  The preview handler of a protected upload accepts the
    CSV if and only if its first row has the four columns recipient, payload,
    passwordhash and id, the trial hydration of that row passes, and the
    delete of the protected rows goes through.  Columns beyond the four do
    not make the header check fail: the check fails exactly when one of the
    four is missing. *)
Theorem uploadProtectedCompleteOnPreview_accepts_iff tx template cid (data : list CSVParams) w :
  (checkTemplateKeysMatch data PROTECTED_CSV_HEADERS = None <->
   exists row : CSVParams,
     head data = Some row /\
     forall key, In key PROTECTED_CSV_HEADERS -> is_Some (row !! key)) /\
  ((uploadProtectedCompleteOnPreview tx template cid data w).1 = Ok tt <->
   (exists row : CSVParams,
      head data = Some row /\
      forall key, In key PROTECTED_CSV_HEADERS -> is_Some (row !! key)) /\
   testHydration [head data] (t_body template) (t_subject template) = None /\
   next_fault w = None).
Proof.
  assert (Hcheck : checkTemplateKeysMatch data PROTECTED_CSV_HEADERS = None <->
            exists row : CSVParams,
              head data = Some row /\
              forall key, In key PROTECTED_CSV_HEADERS -> is_Some (row !! key)).
  { rewrite checkTemplateKeysMatch_covers. destruct (head data) as [row|]; cbn.
    - split; [intros Hall; exists row; auto|].
      intros (row' & [= <-] & Hall). exact Hall.
    - split.
      + intros Hall. destruct (Hall "recipient") as [v Hv]; [left; reflexivity|].
        rewrite lookup_empty in Hv. discriminate.
      + intros (row & [=] & _). }
  split; [exact Hcheck|].
  rewrite <- Hcheck, uploadProtectedCompleteOnPreview_run.
  destruct (checkTemplateKeysMatch data PROTECTED_CSV_HEADERS) as [e|].
  - cbn. split; [discriminate|]. intros ([=] & _).
  - destruct (testHydration _ _ _) as [e|].
    + cbn. split; [discriminate|]. intros (_ & [=] & _).
    + destruct (next_fault w) as [e|]; cbn.
      * split; [discriminate|]. intros (_ & _ & [=]).
      * split; auto.
Qed.

(** * Further properties of the service *)

(** ** What a successful preview removes and what it keeps *)

Lemma without_campaign_In cid ms m :
  In m (without_campaign cid ms) <-> In m ms /\ campaignId m <> cid.
Proof.
  unfold without_campaign. rewrite filter_In, negb_true_iff, Z.eqb_neq. tauto.
Qed.

Lemma without_campaign_other cid other ms :
  other <> cid ->
  filter (fun m => campaignId m = other) (without_campaign cid ms) =
  filter (fun m => campaignId m = other) ms.
Proof.
  intros Hne. unfold without_campaign.
  induction ms as [|m ms IH]; [reflexivity|].
  cbn [List.filter]. destruct (Z.eqb_spec (campaignId m) cid) as [Heq|Hneq]; cbn [negb].
  - rewrite IH, (filter_cons (fun m => campaignId m = other) m ms).
    destruct (decide (campaignId m = other)); [congruence|reflexivity].
  - rewrite !filter_cons, IH. reflexivity.
Qed.

Lemma without_campaign_same cid ms :
  filter (fun m => campaignId m = cid) (without_campaign cid ms) = [].
Proof.
  unfold without_campaign. induction ms as [|m ms IH]; [reflexivity|].
  cbn [List.filter]. destruct (Z.eqb_spec (campaignId m) cid) as [Heq|Hneq]; cbn [negb].
  - exact IH.
  - rewrite filter_cons, IH. destruct (decide (campaignId m = cid)); [contradiction|reflexivity].
Qed.

Lemma chunkRecords_campaign cid data :
  filter (fun m => campaignId m = cid) (chunkRecords cid data) = chunkRecords cid data.
Proof.
  induction data as [|entry data IH]; [reflexivity|].
  cbn [chunkRecords List.map]. fold (chunkRecords cid data).
  rewrite filter_cons, IH. cbn [campaignId].
  destruct (decide (cid = cid)); [reflexivity|contradiction].
Qed.

Lemma chunkRecords_other cid other data :
  other <> cid ->
  filter (fun m => campaignId m = other) (chunkRecords cid data) = [].
Proof.
  intros Hne. induction data as [|entry data IH]; [reflexivity|].
  cbn [chunkRecords List.map]. fold (chunkRecords cid data).
  rewrite filter_cons, IH. cbn [campaignId].
  destruct (decide (cid = other)); [congruence|reflexivity].
Qed.

(** X1. A preview of a plain upload that passes validation and whose delete
    goes through removes every message row of the campaign and nothing else:
    the rows left are the rows that were there for other campaigns, in their
    order; campaigns, templates and protected rows are untouched, and the
    handler neither commits nor rolls back. *)
Theorem uploadCompleteOnPreview_deletes_only_campaign_rows tx template cid data w :
  checkTemplateKeysMatch data (t_params template) = None ->
  testHydration [head data] (t_body template) (t_subject template) = None ->
  next_fault w = None ->
  exists w',
    uploadCompleteOnPreview tx template cid data w = (Ok tt, w') /\
    (forall m, In m (email_messages (store w')) <->
               In m (email_messages (store w)) /\ campaignId m <> cid) /\
    (forall other, other <> cid ->
       filter (fun m => campaignId m = other) (email_messages (store w')) =
       filter (fun m => campaignId m = other) (email_messages (store w))) /\
    campaigns (store w') = campaigns (store w) /\
    email_templates (store w') = email_templates (store w) /\
    protected_messages (store w') = protected_messages (store w) /\
    tx_state w' = tx_state w.
Proof.
  intros Hk Hh Hnf. rewrite uploadCompleteOnPreview_run, Hk, Hh, Hnf.
  eexists. split; [reflexivity|]. cbn.
  split; [intros m; apply without_campaign_In|].
  split; [intros other; apply without_campaign_other|]. auto.
Qed.

(** X2. A preview of a protected upload that is accepted deletes the
    protected rows of the campaign and nothing else; in particular it deletes
    no message row, not even those of the campaign. *)
Theorem uploadProtectedCompleteOnPreview_keeps_email_messages tx template cid data w :
  checkTemplateKeysMatch data PROTECTED_CSV_HEADERS = None ->
  testHydration [head data] (t_body template) (t_subject template) = None ->
  next_fault w = None ->
  exists w',
    uploadProtectedCompleteOnPreview tx template cid data w = (Ok tt, w') /\
    email_messages (store w') = email_messages (store w) /\
    (forall p, In p (protected_messages (store w')) <->
               In p (protected_messages (store w)) /\ p_campaignId p <> cid) /\
    campaigns (store w') = campaigns (store w) /\
    email_templates (store w') = email_templates (store w) /\
    tx_state w' = tx_state w.
Proof.
  intros Hk Hh Hnf. rewrite uploadProtectedCompleteOnPreview_run, Hk, Hh, Hnf.
  eexists. split; [reflexivity|]. cbn. split; [reflexivity|].
  split; [|auto]. intros p.
  rewrite filter_In, negb_true_iff, Z.eqb_neq. tauto.
Qed.

(** ** How the handlers compose *)

Lemma next_fault_tail_none w :
  first_fault (take 2 (faults w)) = None ->
  next_fault w = None /\
  forall s st tr,
    next_fault {| store := s; tx_state := st; faults := tail (faults w); trace := tr |} = None.
Proof.
  rewrite first_fault_next. destruct (next_fault w) as [e|] eqn:Hnf; [discriminate|].
  intros Hff. split; [reflexivity|]. intros s st tr.
  unfold next_fault. cbn [faults].
  destruct (tail (faults w)) as [|[e|] rest]; cbn in Hff; congruence.
Qed.

(** X3. The preview handler followed by the chunk handler, both going
    through, replaces the rows of the campaign: afterwards the rows of the
    campaign are exactly the records of the chunk, in order, whatever rows
    the campaign had before, and the rows of every other campaign are as
    they were. *)
Theorem preview_then_chunk_replaces_campaign_rows tx template cid preview data w :
  checkTemplateKeysMatch preview (t_params template) = None ->
  testHydration [head preview] (t_body template) (t_subject template) = None ->
  first_fault (take 2 (faults w)) = None ->
  exists w',
    (await _ := uploadCompleteOnPreview tx template cid preview in
     uploadCompleteOnChunk tx cid data) w = (Ok tt, w') /\
    filter (fun m => campaignId m = cid) (email_messages (store w')) =
      chunkRecords cid data /\
    (forall other, other <> cid ->
       filter (fun m => campaignId m = other) (email_messages (store w')) =
       filter (fun m => campaignId m = other) (email_messages (store w))).
Proof.
  intros Hk Hh Hff. destruct (next_fault_tail_none w Hff) as [Hnf Hnf2].
  unfold bind. rewrite uploadCompleteOnPreview_run, Hk, Hh, Hnf.
  rewrite uploadCompleteOnChunk_ok by apply Hnf2.
  eexists. split; [reflexivity|]. cbn. split.
  - rewrite filter_app, without_campaign_same, chunkRecords_campaign. reflexivity.
  - intros other Hne.
    rewrite filter_app, without_campaign_other, chunkRecords_other by assumption.
    apply app_nil_r.
Qed.

(** X4. Two chunks handled one after the other leave the same store as one
    chunk with the rows of both: how the file is cut into chunks does not
    show in the stored rows. *)
Theorem uploadCompleteOnChunk_chunks_compose tx cid data1 data2 w :
  first_fault (take 2 (faults w)) = None ->
  exists w1 w2,
    (await _ := uploadCompleteOnChunk tx cid data1 in
     uploadCompleteOnChunk tx cid data2) w = (Ok tt, w1) /\
    uploadCompleteOnChunk tx cid (data1 ++ data2) w = (Ok tt, w2) /\
    store w1 = store w2.
Proof.
  intros Hff. destruct (next_fault_tail_none w Hff) as [Hnf Hnf2].
  unfold bind. rewrite (uploadCompleteOnChunk_ok tx cid data1 w Hnf).
  rewrite uploadCompleteOnChunk_ok by apply Hnf2.
  rewrite (uploadCompleteOnChunk_ok tx cid (data1 ++ data2) w Hnf).
  eexists _, _. split; [reflexivity|]. split; [reflexivity|]. cbn.
  unfold with_email_messages, chunkRecords. cbn.
  rewrite map_app, <- app_assoc. reflexivity.
Qed.

(** ** The chunk handler of a protected upload *)

(** X5. The chunk handler of a protected upload.  When storing the protected
    messages fails, the handler rolls back and rethrows without calling the
    bulk insert.  When the bulk insert fails after the protected messages
    were stored, it rolls back as well, and the store is the one the
    transaction was begun on, the protected messages of the chunk undone.
    When both go through, the message records that the protected service
    returned are appended to the message rows in the order returned. *)
Theorem uploadProtectedCompleteOnChunk_outcomes tx cid data w :
  (forall e,
      next_fault w = Some e ->
      exists w',
        uploadProtectedCompleteOnChunk tx cid data w = (Throw e, w') /\
        new_events w w' = [EvStoreProtectedMessages cid data; EvRollback] /\
        store w' = savepoint tx /\ tx_state w' = RolledBack) /\
  (forall e rest,
      faults w = None :: Some e :: rest ->
      exists w',
        uploadProtectedCompleteOnChunk tx cid data w = (Throw e, w') /\
        new_events w w' = [EvStoreProtectedMessages cid data;
                           EvBulkCreate (protect cid data).2; EvRollback] /\
        store w' = savepoint tx /\ tx_state w' = RolledBack) /\
  (first_fault (take 2 (faults w)) = None ->
   exists w',
     uploadProtectedCompleteOnChunk tx cid data w = (Ok tt, w') /\
     new_events w w' = [EvStoreProtectedMessages cid data;
                        EvBulkCreate (protect cid data).2] /\
     email_messages (store w') = email_messages (store w) ++ (protect cid data).2 /\
     protected_messages (store w') = protected_messages (store w) ++ (protect cid data).1 /\
     tx_state w' = tx_state w).
Proof.
  unfold uploadProtectedCompleteOnChunk, try_catch, bind at 1 3 5,
    ProtectedService_storeProtectedMessages, EmailMessage_bulkCreate.
  split; [|split].
  - intros e Hnf. rewrite (persist_fault _ _ _ e) by assumption.
    eexists. split; [reflexivity|].
    split; [apply new_events_app; cbn; rewrite <- app_assoc; reflexivity|].
    auto.
  - intros e rest Hf.
    rewrite persist_ok by (unfold next_fault; rewrite Hf; reflexivity).
    rewrite Hf. cbn [tail].
    rewrite (persist_fault _ _ _ e) by reflexivity.
    destruct (protect cid data) as [ps ms] eqn:Hp.
    eexists. split; [reflexivity|].
    split; [apply new_events_app; cbn; rewrite <- !app_assoc; reflexivity|].
    auto.
  - intros Hff. destruct (next_fault_tail_none w Hff) as [Hnf Hnf2].
    rewrite persist_ok by assumption. rewrite persist_ok by apply Hnf2.
    destruct (protect cid data) as [ps ms] eqn:Hp.
    eexists. split; [reflexivity|].
    split; [apply new_events_app; cbn; rewrite <- !app_assoc; reflexivity|].
    cbn. auto.
Qed.

(** ** Dispatch, over every behaviour of the collaborators *)

Lemma getCampaignMessage_world cid recipient w :
  (getCampaignMessage cid recipient w).2 = w.
Proof. rewrite getCampaignMessage_run. reflexivity. Qed.

(** X7. Dispatch succeeds if and only if composition yields a mail and the
    promise of the transport resolves with a non-empty message identifier. *)
Theorem sendCampaignMessage_succeeds_iff cid recipient w :
  (sendCampaignMessage cid recipient w).1 = Ok tt <->
  exists mail id,
    getCampaignMessage cid recipient w = (Ok (Some mail), w) /\
    sendMail mail = Returned (Resolved (Some id)) /\
    id <> "".
Proof.
  rewrite sendCampaignMessage_run.
  pose proof (getCampaignMessage_world cid recipient w) as Hw.
  destruct (getCampaignMessage cid recipient w) as [r w0]. cbn in Hw. subst w0.
  cbn [fst]. destruct r as [[mail|]|e].
  - rewrite sendEmail_run. destruct (sendMail mail) as [e|[[id|]|e]] eqn:Hsend; cbn.
    + split; [discriminate|]. intros (m & i & [= <-] & Hs & _). congruence.
    + destruct (String.eqb_spec id "") as [->|Hne]; cbn.
      * split; [discriminate|]. intros (m & i & [= <-] & Hs & Hi). congruence.
      * split; [|reflexivity]. intros _. exists mail, id. auto.
    + split; [discriminate|]. intros (m & i & [= <-] & Hs & _). congruence.
    + split; [discriminate|]. intros (m & i & [= <-] & Hs & _). congruence.
  - cbn. split; [discriminate|]. intros (m & i & [=] & _).
  - cbn. split; [discriminate|]. intros (m & i & [=] & _).
Qed.

(** X8. Dispatch never writes: whatever the collaborators do, it leaves the
    store, the transaction and the pending persistence outcomes as they were,
    and it calls the transport at most once. *)
Theorem sendCampaignMessage_never_writes cid recipient w :
  let w' := (sendCampaignMessage cid recipient w).2 in
  store w' = store w /\ tx_state w' = tx_state w /\ faults w' = faults w /\
  (length (transport_calls (new_events w w')) <= 1)%nat /\
  Forall (fun ev => ev = EvLoggerError \/ exists mail, ev = EvSendMail mail)
    (new_events w w').
Proof.
  rewrite sendCampaignMessage_run.
  destruct (getCampaignMessage cid recipient w).1 as [[mail|]|e];
    try (cbn; rewrite new_events_refl; cbn; repeat split; auto with arith; fail).
  rewrite sendEmail_run. destruct (sendMail mail) as [e|[v|e]].
  - cbn [snd fst]. destruct (negb (truthy None)); cbn [snd];
      rewrite new_events_traced2; cbn; repeat split; eauto 6.
  - destruct (negb (truthy v)); cbn [snd];
      rewrite new_events_traced; cbn; repeat split; eauto 6.
  - cbn [snd]. rewrite new_events_traced; cbn; repeat split; eauto 6.
Qed.

(** X9. The reply-to of a composed mail.  The mail is addressed to the given
    recipient alone, and it carries a reply-to exactly when the template has
    a non-empty one, which it then carries unchanged; a template whose
    reply-to is missing or empty gives a mail without the field. *)
Theorem getCampaignMessage_replyTo cid recipient w mail w' :
  getCampaignMessage cid recipient w = (Ok (Some mail), w') ->
  recipients mail = [recipient] /\
  exists t,
    getFilledTemplate cid (store w) = Some t /\
    forall address,
      replyTo mail = Some address <-> t_replyTo t = Some address /\ address <> "".
Proof.
  rewrite getCampaignMessage_run. intros Hrun.
  destruct (getHydratedMessage cid w) as [r w0] eqn:Hh. cbn [fst] in Hrun.
  destruct r as [[m|]|e]; try discriminate.
  injection Hrun as <- <-. cbn [recipients replyTo]. split; [reflexivity|].
  destruct (getHydratedMessage_some_inv _ _ _ _ Hh) as (t & p & Ht & _ & _ & _ & Hr).
  exists t. split; [exact Ht|]. intros address. rewrite Hr.
  destruct (t_replyTo t) as [a|]; cbn.
  - destruct (String.eqb a "") eqn:He; cbn; rewrite ?He; cbn.
    + apply String.eqb_eq in He. subst a.
      split; [discriminate|]. intros [[= <-] Hne]. contradiction.
    + apply String.eqb_neq in He.
      split; [intros [= <-]; auto|intros [Ha _]; exact Ha].
  - split; [discriminate|]. intros [[=] _].
Qed.

(** X10. A failure of the templating client surfaces from dispatch as the
    client's own error, before the transport is called: when the template and
    the parameters are stored and the client throws on the subject, or
    hydrates the subject and throws on the body, hydration and dispatch fail
    with that error and the world is as it was. *)
Theorem sendCampaignMessage_hydration_failure cid recipient w t p e :
  getFilledTemplate cid (store w) = Some t ->
  getParams cid w = (Ok (Some p), w) ->
  client_template (t_subject t) p = Throw e \/
  (exists s, client_template (t_subject t) p = Ok s /\
             client_template (t_body t) p = Throw e) ->
  getHydratedMessage cid w = (Throw e, w) /\
  sendCampaignMessage cid recipient w = (Throw e, w).
Proof.
  intros Ht Hp Hthrow. rewrite getParams_run in Hp. injection Hp as Hp.
  assert (Hh : getHydratedMessage cid w = (Throw e, w)).
  { rewrite getHydratedMessage_run, Ht, Hp.
    destruct Hthrow as [-> | (s & -> & ->)]; reflexivity. }
  split; [exact Hh|].
  rewrite sendCampaignMessage_run, getCampaignMessage_run, Hh. reflexivity.
Qed.

(** ** The credential binding, further *)

Lemma filter_bool_length {A} (f : A -> bool) (P : A -> Prop) `{forall x, Decision (P x)}
    (l : list A) :
  (forall x, f x = true <-> P x) ->
  length (List.filter f l) = length (filter P l).
Proof.
  intros Hf. induction l as [|a l IH]; [reflexivity|].
  cbn [List.filter]. rewrite filter_cons.
  destruct (f a) eqn:Hfa; destruct (decide (P a)) as [HP|HP]; cbn [length].
  - rewrite IH. reflexivity.
  - apply Hf in Hfa. contradiction.
  - apply Hf in HP. congruence.
  - exact IH.
Qed.

Lemma map_if_false {A} (f : A -> bool) (g : A -> A) (l : list A) :
  (forall x, In x l -> f x = false) ->
  List.map (fun x => if f x then g x else x) l = l.
Proof.
  induction l as [|a l IH]; [reflexivity|]. intros Hall. cbn.
  rewrite (Hall a) by (left; reflexivity). rewrite IH; [reflexivity|].
  intros x Hx. apply Hall. right. exact Hx.
Qed.

Lemma with_campaigns_same s : with_campaigns s (campaigns s) = s.
Proof. destruct s; reflexivity. Qed.

(** X11. The answer of [setCampaignCredential].  When the update fails, the
    error is the caller's and the store is unchanged.  When it goes through,
    the answer is the number of campaigns that have the given id; for an id
    that no campaign has, the answer is zero and the store is unchanged,
    without an error. *)
Theorem setCampaignCredential_affected cid w :
  (forall e,
      next_fault w = Some e ->
      exists w', setCampaignCredential cid w = (Throw e, w') /\ store w' = store w) /\
  (next_fault w = None ->
   exists w',
     setCampaignCredential cid w =
       (Ok (length (filter (fun c => c_id c = cid) (campaigns (store w)))), w') /\
     ((forall c, In c (campaigns (store w)) -> c_id c <> cid) -> store w' = store w)).
Proof.
  unfold setCampaignCredential, Campaign_update. split.
  - intros e Hnf. rewrite (persist_fault _ _ _ e) by assumption.
    eexists. split; reflexivity.
  - intros Hnf. rewrite persist_ok by assumption. cbn [fst snd].
    eexists. split.
    + f_equal. f_equal. apply filter_bool_length. intros c. apply Z.eqb_eq.
    + cbn [store]. intros Hnone.
      rewrite map_if_false; [apply with_campaigns_same|].
      intros c Hc. apply Z.eqb_neq. apply Hnone. exact Hc.
Qed.

Lemma bind_default_twice (cid : Z) (g : Campaign -> Campaign) (l : list Campaign) :
  (forall c, Z.eqb (c_id (g c)) cid = Z.eqb (c_id c) cid) ->
  (forall c, g (g c) = g c) ->
  List.map (fun c => if Z.eqb (c_id c) cid then g c else c)
    (List.map (fun c => if Z.eqb (c_id c) cid then g c else c) l) =
  List.map (fun c => if Z.eqb (c_id c) cid then g c else c) l /\
  length (List.filter (fun c => Z.eqb (c_id c) cid)
            (List.map (fun c => if Z.eqb (c_id c) cid then g c else c) l)) =
  length (List.filter (fun c => Z.eqb (c_id c) cid) l).
Proof.
  intros Hid Hgg. induction l as [|c l [IH1 IH2]]; [split; reflexivity|].
  cbn [List.map List.filter].
  destruct (Z.eqb (c_id c) cid) eqn:Hc.
  - rewrite Hid, Hc. cbn [length]. rewrite Hgg, IH1, IH2. split; reflexivity.
  - rewrite Hc. rewrite IH1, IH2. split; reflexivity.
Qed.

(** X12. Binding the credential is idempotent: a second call with the same
    id, both updates going through, leaves the store as the first call left
    it and gives the same answer. *)
Theorem setCampaignCredential_idempotent cid w :
  first_fault (take 2 (faults w)) = None ->
  exists affected w1 w2,
    setCampaignCredential cid w = (Ok affected, w1) /\
    setCampaignCredential cid w1 = (Ok affected, w2) /\
    store w2 = store w1.
Proof.
  intros Hff. destruct (next_fault_tail_none w Hff) as [Hnf Hnf2].
  unfold setCampaignCredential, Campaign_update.
  rewrite persist_ok by assumption. cbn [fst snd].
  eexists _, _, _. split; [reflexivity|].
  rewrite persist_ok by apply Hnf2. cbn [fst snd store].
  unfold with_campaigns. cbn [campaigns email_templates email_messages protected_messages].
  destruct (bind_default_twice cid
              (fun c => {| c_id := c_id c; c_userId := c_userId c; c_type := c_type c;
                           c_credName := Some "EMAIL_DEFAULT" |})
              (campaigns (store w))) as [H1 H2]; [reflexivity | reflexivity |].
  rewrite H1, H2. split; reflexivity.
Qed.

Lemma find_map_invariant {A} (f : A -> bool) (g : A -> A) (l : list A) :
  (forall x, f (g x) = f x) ->
  List.find f (List.map g l) = option_map g (List.find f l).
Proof.
  intros Hfg. induction l as [|a l IH]; [reflexivity|].
  cbn. rewrite Hfg. destruct (f a); [reflexivity|exact IH].
Qed.

(** X13. Binding the credential does not change which campaign
    [findCampaign] yields: after [setCampaignCredential] on any id, a lookup
    by id and owner yields the campaign it yielded before, with the new
    credential name if it is the campaign that was bound, and nothing if it
    yielded nothing before. *)
Theorem findCampaign_after_setCampaignCredential bound cid uid w :
  next_fault w = None ->
  exists affected w' r,
    setCampaignCredential bound w = (Ok affected, w') /\
    findCampaign cid uid w = (Ok r, w) /\
    findCampaign cid uid w' =
      (Ok (match r with
           | Some c =>
               Some (if Z.eqb (c_id c) bound
                     then {| c_id := c_id c; c_userId := c_userId c; c_type := c_type c;
                             c_credName := Some "EMAIL_DEFAULT" |}
                     else c)
           | None => None
           end), w').
Proof.
  intros Hnf. unfold setCampaignCredential, Campaign_update.
  rewrite persist_ok by assumption. cbn [fst snd].
  eexists _, _, _. split; [reflexivity|]. split; [reflexivity|].
  unfold findCampaign, gets, Campaign_findOne. cbn [store with_campaigns campaigns].
  rewrite find_map_invariant.
  - destruct (List.find _ (campaigns (store w))); reflexivity.
  - intros c. destruct (Z.eqb (c_id c) bound); reflexivity.
Qed.

End Properties.

(** * The database loader and the image control *)

(** X14. The options of the connection.  Outside production the dialect
    options of the configuration are not passed at all: the options are the
    dialect postgres, logging off and the pool.  In production every dialect
    option is passed at the top level of the options, replacing a fixed
    entry of the same name, and the fixed entries that no dialect option
    names are kept. *)
Theorem sequelizeLoader_options_spread (config : SequelizeLoader.Config) :
  let fixed : gmap string SequelizeLoader.JsValue :=
    {[ "dialect" := SequelizeLoader.JsString "postgres";
       "logging" := SequelizeLoader.JsBool false;
       "pool" := SequelizeLoader.poolOptions config ]} in
  (SequelizeLoader.IS_PROD config = false ->
   SequelizeLoader.options config = fixed) /\
  (SequelizeLoader.IS_PROD config = true ->
   forall k v,
     SequelizeLoader.dialectOptions config !! k = Some v ->
     SequelizeLoader.options config !! k = Some v) /\
  (SequelizeLoader.IS_PROD config = true ->
   forall k,
     SequelizeLoader.dialectOptions config !! k = None ->
     SequelizeLoader.options config !! k = fixed !! k).
Proof.
  intros fixed. unfold SequelizeLoader.options. fold fixed.
  split; [|split]; intros ->.
  - apply (left_id_L ∅ (∪)).
  - intros k v Hk. apply lookup_union_Some_l. exact Hk.
  - intros k Hk. apply lookup_union_r. exact Hk.
Qed.

(** X15. How the loader ends.  The process exits, with status 1 and after
    logging the error of the synchronisation, exactly when the constructor
    and the registration of the models go through and the synchronisation
    fails: the calls are then the constructor, the registration, the
    synchronisation, the error log and the exit, in this order.  An
    exception of the constructor or of the registration is not caught: the
    loader rejects with it, without synchronising, logging or exiting.  The
    nine models are registered in one call, core, email, SMS in this order,
    before the synchronisation, and the load is logged, as the last call,
    exactly when the loader resolves. *)
Theorem sequelizeLoader_ends config answers :
  let steps := (SequelizeLoader.sequelizeLoader config answers).1 in
  let outcome := (SequelizeLoader.sequelizeLoader config answers).2 in
  let created :=
    SequelizeLoader.NewSequelize (SequelizeLoader.databaseUri config)
      (SequelizeLoader.options config) in
  let added :=
    SequelizeLoader.AddModels
      [SequelizeLoader.Credential; SequelizeLoader.JobQueue;
       SequelizeLoader.Campaign; SequelizeLoader.User; SequelizeLoader.Worker;
       SequelizeLoader.EmailMessage; SequelizeLoader.EmailTemplate;
       SequelizeLoader.SmsMessage; SequelizeLoader.SmsTemplate] in
  (forall err,
      SequelizeLoader.construct_throws answers = None ->
      SequelizeLoader.addModels_throws answers = None ->
      SequelizeLoader.sync_rejects answers = Some err ->
      steps = [created; added; SequelizeLoader.Sync;
               SequelizeLoader.LoggerError "Unable to connect to database: " err;
               SequelizeLoader.ProcessExit 1] /\
      outcome = SequelizeLoader.Exits 1) /\
  (SequelizeLoader.construct_throws answers = None ->
   SequelizeLoader.addModels_throws answers = None ->
   SequelizeLoader.sync_rejects answers = None ->
   steps = [created; added; SequelizeLoader.Sync;
            SequelizeLoader.LoggerInfo "Database loaded."] /\
   outcome = SequelizeLoader.Resolves) /\
  (forall e,
      SequelizeLoader.construct_throws answers = Some e ->
      steps = [created] /\ outcome = SequelizeLoader.Rejects e) /\
  (forall e,
      SequelizeLoader.construct_throws answers = None ->
      SequelizeLoader.addModels_throws answers = Some e ->
      steps = [created; added] /\ outcome = SequelizeLoader.Rejects e) /\
  (forall code,
      outcome = SequelizeLoader.Exits code <->
      code = 1 /\
      SequelizeLoader.construct_throws answers = None /\
      SequelizeLoader.addModels_throws answers = None /\
      is_Some (SequelizeLoader.sync_rejects answers)) /\
  (forall e,
      outcome = SequelizeLoader.Rejects e <->
      SequelizeLoader.construct_throws answers = Some e \/
      (SequelizeLoader.construct_throws answers = None /\
       SequelizeLoader.addModels_throws answers = Some e)) /\
  (outcome = SequelizeLoader.Resolves <->
   SequelizeLoader.construct_throws answers = None /\
   SequelizeLoader.addModels_throws answers = None /\
   SequelizeLoader.sync_rejects answers = None).
Proof.
  cbv zeta. unfold SequelizeLoader.sequelizeLoader.
  destruct (SequelizeLoader.construct_throws answers) as [e1|];
    [|destruct (SequelizeLoader.addModels_throws answers) as [e2|];
      [|destruct (SequelizeLoader.sync_rejects answers) as [e3|]]];
    cbn [fst snd]; repeat first [split | intro];
    repeat match goal with
      | H : _ /\ _ |- _ => destruct H
      | H : _ \/ _ |- _ => destruct H
      | H : is_Some _ |- _ => destruct H
      | H : SequelizeLoader.Rejects _ = SequelizeLoader.Rejects _ |- _ =>
          injection H as ->
      | H : Some _ = Some _ |- _ => injection H as ->
      end;
    try discriminate; try congruence; try reflexivity; eauto.
Qed.

(** X16. The wrapper looks disabled exactly when a click on it does nothing.
    When the content has the block of the anchor, a click calls
    [onExpandEvent], once, if and only if the wrapper does not carry the
    class rdw-option-disabled, which it carries if and only if the block is a
    table cell or an item of an unordered or ordered list; a click calls
    nothing else.  The form is shown whenever the control is expanded, also
    when the wrapper is disabled.  When the content has no block for the
    anchor key, neither the click handler nor the class names are computed. *)
Theorem showPopover_matches_disabled_class (editorState : ImageControl.EditorState) :
  (forall anchorType,
      ImageControl.blockTypes editorState !! ImageControl.anchorKey editorState
        = Some anchorType ->
      exists calls classes,
        ImageControl.showPopover editorState = Some calls /\
        ImageControl.wrapperClassNames editorState = Some classes /\
        (calls = [ImageControl.OnExpandEvent] \/ calls = []) /\
        (calls = [ImageControl.OnExpandEvent] <-> ~ In "rdw-option-disabled" classes) /\
        (In "rdw-option-disabled" classes <->
           anchorType = "table-cell" \/ anchorType = "unordered-list-item" \/
           anchorType = "ordered-list-item") /\
        forall expanded, ImageControl.showsForm expanded editorState = Some expanded) /\
  (ImageControl.blockTypes editorState !! ImageControl.anchorKey editorState = None ->
   ImageControl.showPopover editorState = None /\
   ImageControl.wrapperClassNames editorState = None).
Proof.
  unfold ImageControl.showPopover, ImageControl.wrapperClassNames,
    ImageControl.showsForm, ImageControl.isDisabled.
  split.
  - intros anchorType ->. cbv beta iota.
    set (disabled := String.eqb anchorType "table-cell"
                     || String.eqb anchorType "unordered-list-item"
                     || String.eqb anchorType "ordered-list-item").
    assert (Hd : disabled = true <->
                 anchorType = "table-cell" \/ anchorType = "unordered-list-item" \/
                 anchorType = "ordered-list-item").
    { unfold disabled. rewrite !orb_true_iff, !String.eqb_eq. tauto. }
    destruct disabled; cbn; eexists _, _;
      (split; [reflexivity|]); (split; [reflexivity|]).
    + split; [auto|]. split; [|split; [|reflexivity]].
      * split; [discriminate|]. intros Hn. exfalso. apply Hn. right. left. reflexivity.
      * split; [intros _; apply Hd; reflexivity|]. intros _. right. left. reflexivity.
    + split; [auto|]. split; [|split; [|reflexivity]].
      * split; [|reflexivity]. intros _ [Hin|[]]. discriminate Hin.
      * split; [intros [Hin|[]]; discriminate Hin|].
        intros Ht. apply Hd in Ht. discriminate Ht.
  - intros ->. split; reflexivity.
Qed.

Lemma handleAll_state imgSrc events :
  (ImageControl.handleAll imgSrc events).1 =
    default imgSrc (ImageControl.lastTyped events).
Proof.
  revert imgSrc. induction events as [|ev events IH]; intros imgSrc; [reflexivity|].
  cbn [ImageControl.handleAll].
  destruct ev as [value| |]; cbn [ImageControl.handle ImageControl.lastTyped];
    match goal with
    | |- context [ImageControl.handleAll ?s events] =>
        specialize (IH s); destruct (ImageControl.handleAll s events) as [final calls]
    end; cbn [fst] in *; subst final;
    destruct (ImageControl.lastTyped events); reflexivity.
Qed.

Lemma handleAll_calls imgSrc events key vals :
  In (ImageControl.OnChange key vals) (ImageControl.handleAll imgSrc events).2 ->
  vals = ["auto"; "100%"; ""].
Proof.
  revert imgSrc. induction events as [|ev events IH]; intros imgSrc; [intros []|].
  cbn [ImageControl.handleAll].
  destruct ev as [value| |]; cbn [ImageControl.handle];
    match goal with
    | |- context [ImageControl.handleAll ?s events] =>
        specialize (IH s); destruct (ImageControl.handleAll s events) as [final calls]
    end; cbn [snd] in *; cbn.
  - exact IH.
  - intros [[=]|[[= _ <-]|Hin]]; [reflexivity|auto].
  - intros [[=]|Hin]. auto.
Qed.

(** X17. The image form submits what was typed last.  After any sequence of
    input changes, submits and clicks, starting from the empty input, the
    text that a submit passes to [onChange] is the text of the last input
    change (the empty text if there was none), with the fixed height auto,
    width 100% and an empty alternative text; neither a submit nor a click
    changes or clears the text; and the Add button is disabled exactly when
    that text is empty. *)
Theorem ImageForm_submits_last_typed (events : list ImageControl.FormEvent) :
  let imgSrc := (ImageControl.handleAll ImageControl.initialImgSrc events).1 in
  let calls := (ImageControl.handleAll ImageControl.initialImgSrc events).2 in
  imgSrc = default "" (ImageControl.lastTyped events) /\
  ImageControl.handle imgSrc ImageControl.Submit =
    (imgSrc, [ImageControl.PreventDefault;
              ImageControl.OnChange (default "" (ImageControl.lastTyped events))
                ["auto"; "100%"; ""]]) /\
  (ImageControl.handleAll ImageControl.initialImgSrc
     (events ++ [ImageControl.Submit; ImageControl.Click])).1 = imgSrc /\
  (ImageControl.addDisabled imgSrc = true <->
   default "" (ImageControl.lastTyped events) = "") /\
  (forall key vals, In (ImageControl.OnChange key vals) calls ->
                    vals = ["auto"; "100%"; ""]).
Proof.
  cbv zeta. rewrite !handleAll_state.
  assert (Hlast : ImageControl.lastTyped (events ++ [ImageControl.Submit; ImageControl.Click])
                  = ImageControl.lastTyped events).
  { induction events as [|ev events IH]; [reflexivity|].
    destruct ev; cbn [app ImageControl.lastTyped]; rewrite IH; reflexivity. }
  rewrite Hlast. unfold ImageControl.initialImgSrc.
  split; [reflexivity|]. split; [reflexivity|]. split; [reflexivity|].
  split; [apply String.eqb_eq|].
  intros key vals. apply handleAll_calls.
Qed.

(** * Concrete runs *)

(** A chunk in which one recipient appears twice gives three records, two of
    them for that recipient. *)
Lemma uploadCompleteOnChunk_one_record_per_row_witness :
  let data := [row_alex; row_bo; row_alex] in
  let w := world_of empty_store [] in
  next_fault w = None /\
  exists records,
    length records = length data /\
    (forall (i : nat) entry,
        data !! i = Some entry ->
        records !! i =
          Some {| campaignId := 1; recipient := entry !! "recipient";
                  params := entry |}) /\
    (forall r : string,
        length (filter (fun m => recipient m = Some r) records) =
        length (filter (fun entry : CSVParams => entry !! "recipient" = Some r) data)) /\
    (exists rest,
        new_events w (uploadCompleteOnChunk sample_tx 1 data w).2
          = EvBulkCreate records :: rest /\
        (rest = [] \/ rest = [EvRollback])) /\
    (next_fault w = None ->
     exists w',
       uploadCompleteOnChunk sample_tx 1 data w = (Ok tt, w') /\
       email_messages (store w') = email_messages (store w) ++ records).
Proof.
  intros data w. split; [reflexivity|].
  exact (uploadCompleteOnChunk_one_record_per_row sample_tx 1 data w).
Defined.

(** An upload of two chunks whose second insert fails ends with the store it
    started from. *)
Lemma upload_lands_entirely_or_not_at_all_witness :
  checkTemplateKeysMatch [row_alex] (t_params greeting) = None /\
  reference_testHydration [head [row_alex]] (t_body greeting) (t_subject greeting) = None /\
  exists w',
    @uploadEmail (reference delivered) greeting 1 [row_alex] [[row_alex]; [row_bo]]
      (world_of sample_store [None; None; Some deadlock]) = (Throw deadlock, w') /\
    store w' = sample_store /\
    tx_state w' = RolledBack /\
    last (trace w') = Some EvRollback.
Proof.
  split; [vm_compute; reflexivity|]. split; [vm_compute; reflexivity|].
  apply (proj2 (proj2 (@upload_lands_entirely_or_not_at_all (reference delivered)))
           greeting 1 [row_alex] [[row_alex]; [row_bo]]
           (world_of sample_store [None; None; Some deadlock]));
    vm_compute; reflexivity.
Defined.

(** A CSV without the zip column, for a template that needs it, is rejected
    by the preview handler with the sample rows still in place. *)
Lemma preview_validates_before_delete_witness :
  let template := {| t_campaignId := 1; t_body := "Hi {{name}} of {{zip}}";
                     t_subject := "Welcome"; t_params := ["recipient"; "name"; "zip"];
                     t_replyTo := None |} in
  let w := world_of sample_store [] in
  checkTemplateKeysMatch [row_alex] (t_params template) = Some (HeaderMismatch ["zip"]) /\
  exists w',
    @uploadCompleteOnPreview (reference delivered) sample_tx template 1 [row_alex] w
      = (Throw (HeaderMismatch ["zip"]), w') /\
    store w' = store w /\ tx_state w' = tx_state w /\ faults w' = faults w /\
    Forall (fun ev => is_destroy ev = false) (new_events w w').
Proof.
  intros template w. split; [vm_compute; reflexivity|].
  apply (proj1 (@preview_validates_before_delete (reference delivered)
                  sample_tx template 1 [row_alex] w)).
  left. vm_compute. reflexivity.
Defined.


(** Hydration of a campaign with nothing stored, of the sample campaign, and
    of the campaign whose template names a placeholder its row lacks. *)
Lemma getHydratedMessage_nothing_whole_or_error_witness :
  let w := world_of sample_store [] in
  let first := {| campaignId := 1; recipient := Some "a@x.com"; params := row_alex |} in
  let second := {| campaignId := 1; recipient := Some "b@x.com"; params := row_bo |} in
  ((reference_getFilledTemplate 9 (store w) = None \/
    (forall row, In row (email_messages (store w)) -> campaignId row <> 9)) /\
   @getHydratedMessage (reference delivered) 9 w = (Ok None, w)) /\
  (reference_getFilledTemplate 1 (store w) = Some greeting /\
   email_messages (store w) = [] ++ first :: [second] /\
   campaignId first = 1 /\
   Forall (fun m => campaignId m <> 1) [] /\
   reference_template (t_subject greeting) (params first) = Ok "Welcome" /\
   reference_template (t_body greeting) (params first) = Ok "Hi Alex" /\
   exists m,
     @getHydratedMessage (reference delivered) 1 w = (Ok (Some m), w) /\
     h_subject m = "Welcome" /\ h_body m = "Hi Alex" /\
     (forall a, h_replyTo m = Some a <-> t_replyTo greeting = Some a /\ a <> "")) /\
  ((exists s, reference_template (t_subject greeting_zip) row_alex = Ok s /\
              reference_template (t_body greeting_zip) row_alex
                = Throw (TemplateHydrationFailure "zip")) /\
   @getHydratedMessage (reference delivered) 1 (world_of zip_store [])
     = (Throw (TemplateHydrationFailure "zip"), world_of zip_store [])).
Proof.
  intros w first second.
  pose proof (@getHydratedMessage_nothing_whole_or_error (reference delivered) 9 w) as H9.
  pose proof (@getHydratedMessage_nothing_whole_or_error (reference delivered) 1 w) as H1.
  pose proof (@getHydratedMessage_nothing_whole_or_error (reference delivered) 1
                (world_of zip_store [])) as Hz.
  split; [|split].
  - split; [left; reflexivity|]. apply (proj1 H9). left. reflexivity.
  - assert (Hs : reference_template (t_subject greeting) (params first) = Ok "Welcome")
      by (vm_compute; reflexivity).
    assert (Hb : reference_template (t_body greeting) (params first) = Ok "Hi Alex")
      by (vm_compute; reflexivity).
    split; [reflexivity|]. split; [reflexivity|]. split; [reflexivity|].
    split; [constructor|]. split; [exact Hs|]. split; [exact Hb|].
    exact (proj1 (proj1 (proj2 H1) greeting [] first [second]
                    eq_refl eq_refl eq_refl ltac:(constructor))
             "Welcome" "Hi Alex" Hs Hb).
  - assert (Hthrow : exists s,
               reference_template (t_subject greeting_zip) row_alex = Ok s /\
               reference_template (t_body greeting_zip) row_alex
                 = Throw (TemplateHydrationFailure "zip")).
    { exists "Welcome". split; vm_compute; reflexivity. }
    split; [exact Hthrow|].
    exact (proj2 (proj1 (proj2 Hz) greeting_zip []
                    {| campaignId := 1; recipient := Some "a@x.com"; params := row_alex |}
                    [] eq_refl eq_refl eq_refl ltac:(constructor))
             (TemplateHydrationFailure "zip") (or_intror Hthrow)).
Defined.

(** C5, as stated, fails on the campaign whose template names zip: the
    template and a row of the campaign are stored, and hydration yields no
    document but the error of the templating client. *)
Lemma hydrates_whenever_stored_counterexample :
  ~ @hydrates_whenever_stored (reference delivered) 1 (world_of zip_store []).
Proof.
  intros [_ Hdoc].
  destruct (Hdoc greeting_zip
              {| campaignId := 1; recipient := Some "a@x.com"; params := row_alex |}
              eq_refl (or_introl eq_refl) eq_refl) as [m Hm].
  vm_compute in Hm. discriminate Hm.
Qed.

(** Campaign 1 belongs to user 7 and is an email campaign; campaign 2 belongs
    to user 7 as well but is an SMS campaign. *)
Lemma findCampaign_owner_and_channel_witness :
  let w := world_of sample_store [] in
  let c1 := {| c_id := 1; c_userId := 7; c_type := Email; c_credName := None |} in
  NoDup (List.map c_id (campaigns (store w))) /\
  In c1 (campaigns (store w)) /\
  exists r,
    @findCampaign 1 7 w = (Ok r, w) /\
    (r = Some c1 <-> c_userId c1 = 7 /\ c_type c1 = Email).
Proof.
  intros w c1.
  assert (Hnd : NoDup (List.map c_id (campaigns (store w)))).
  { cbn. apply NoDup_cons. split; [|apply NoDup_singleton].
    intros Hin. apply list_elem_of_singleton in Hin. discriminate Hin. }
  assert (Hin : In c1 (campaigns (store w))) by (left; reflexivity).
  split; [exact Hnd|]. split; [exact Hin|].
  destruct (findCampaign_owner_and_channel 1 7 w) as (r & Hrun & _ & _ & Huniq & _).
  exists r. split; [exact Hrun|]. exact (Huniq Hnd c1 Hin eq_refl).
Defined.

(** The message composed for b@x.com is rendered with the parameters of
    a@x.com, the first row of the campaign. *)
Lemma getCampaignMessage_same_params_for_every_recipient_witness :
  let w := world_of sample_store [] in
  let mail := {| recipients := ["a@x.com"]; body := "Hi Alex"; subject := "Welcome";
                 replyTo := Some "ops@x.com" |} in
  @getCampaignMessage (reference delivered) 1 "a@x.com" w = (Ok (Some mail), w) /\
  @getCampaignMessage (reference delivered) 1 "b@x.com" w =
    (Ok (Some {| recipients := ["b@x.com"]; body := "Hi Alex"; subject := "Welcome";
                 replyTo := Some "ops@x.com" |}), w).
Proof.
  intros w mail.
  assert (Hrun : @getCampaignMessage (reference delivered) 1 "a@x.com" w
                 = (Ok (Some mail), w)) by (vm_compute; reflexivity).
  split; [exact Hrun|].
  exact (proj1 (@getCampaignMessage_same_params_for_every_recipient
                  (reference delivered) 1 "a@x.com" "b@x.com" w mail Hrun)).
Defined.

(** C7, as stated, fails on the sample store: b@x.com has its own row, with
    the name Bo, and the message composed for b@x.com greets Alex. *)
Lemma composes_with_recipient_params_counterexample :
  ~ @composes_with_recipient_params (reference delivered) 1 (world_of sample_store []).
Proof.
  intros Hclaim.
  specialize (Hclaim "b@x.com"
                {| campaignId := 1; recipient := Some "b@x.com"; params := row_bo |}
                greeting
                {| recipients := ["b@x.com"]; body := "Hi Alex"; subject := "Welcome";
                   replyTo := Some "ops@x.com" |}).
  assert (Hbo : reference_template (t_body greeting) row_bo = Ok "Hi Bo")
    by (vm_compute; reflexivity).
  cbn [client_template reference params body] in Hclaim. rewrite Hbo in Hclaim.
  assert (Habs : Ok "Hi Bo" = Ok "Hi Alex").
  { apply Hclaim;
      first [reflexivity | right; left; reflexivity | vm_compute; reflexivity]. }
  discriminate Habs.
Qed.

(** A protected CSV with the four columns and a fifth is accepted. *)
Lemma uploadProtectedCompleteOnPreview_accepts_iff_witness :
  let w := world_of sample_store [] in
  ((exists row : CSVParams,
      head [protected_row] = Some row /\
      forall key, In key PROTECTED_CSV_HEADERS -> is_Some (row !! key)) /\
   reference_testHydration [head [protected_row]] (t_body protected_template)
     (t_subject protected_template) = None /\
   next_fault w = None) /\
  (@uploadProtectedCompleteOnPreview (reference delivered) sample_tx
     protected_template 3 [protected_row] w).1 = Ok tt.
Proof.
  intros w.
  assert (Hcond : (exists row : CSVParams,
                      head [protected_row] = Some row /\
                      forall key, In key PROTECTED_CSV_HEADERS -> is_Some (row !! key)) /\
                  reference_testHydration [head [protected_row]]
                    (t_body protected_template) (t_subject protected_template) = None /\
                  next_fault w = None).
  { split; [|split; vm_compute; reflexivity].
    exists protected_row. split; [reflexivity|].
    intros key [<-|[<-|[<-|[<-|[]]]]]; vm_compute; eauto. }
  split; [exact Hcond|].
  apply (proj2 (proj2 (@uploadProtectedCompleteOnPreview_accepts_iff (reference delivered)
                         sample_tx protected_template 3 [protected_row] w))).
  exact Hcond.
Defined.

(** C8, as stated, fails on that CSV: it is accepted, and its header row is
    not the set of the four columns. *)
Lemma accepts_exact_protected_headers_only_counterexample :
  ~ @accepts_exact_protected_headers_only (reference delivered) sample_tx
      protected_template 3 [protected_row] (world_of sample_store []).
Proof.
  intros [Hexact _].
  destruct Hexact as (row & Hhead & Hdom); [vm_compute; reflexivity|].
  injection Hhead as <-.
  assert (Hname : "name" ∈ dom protected_row)
    by (apply elem_of_dom; vm_compute; eauto).
  rewrite Hdom in Hname. unfold PROTECTED_CSV_HEADERS in Hname.
  set_solver.
Qed.

(** The credential of campaign 2 is overwritten. *)
Lemma setCampaignCredential_binds_default_witness :
  let w := world_of sample_store [] in
  next_fault w = None /\
  exists affected w',
    @setCampaignCredential 2 w = (Ok affected, w') /\
    length (campaigns (store w')) = length (campaigns (store w)) /\
    (forall (i : nat) c,
        campaigns (store w) !! i = Some c ->
        exists c',
          campaigns (store w') !! i = Some c' /\
          c_id c' = c_id c /\ c_userId c' = c_userId c /\ c_type c' = c_type c /\
          (c_id c = 2 -> c_credName c' = Some "EMAIL_DEFAULT") /\
          (c_id c <> 2 -> c' = c)) /\
    email_templates (store w') = email_templates (store w) /\
    email_messages (store w') = email_messages (store w) /\
    protected_messages (store w') = protected_messages (store w) /\
    tx_state w' = tx_state w.
Proof.
  intros w. split; [reflexivity|].
  apply (setCampaignCredential_binds_default 2 w). reflexivity.
Defined.

(** With a transport whose promise rejects, dispatch fails with the
    transport's error, not with the send-failed error. *)
Lemma sendEmail_rejection_escapes_witness :
  let w := world_of sample_store [] in
  let mail := {| recipients := ["b@x.com"]; body := "Hi Alex"; subject := "Welcome";
                 replyTo := Some "ops@x.com" |} in
  @sendEmail (reference (Returned (Rejected smtp_down))) mail w
    = (Throw smtp_down, traced (EvSendMail mail) w) /\
  @sendCampaignMessage (reference (Returned (Rejected smtp_down))) 1 "b@x.com" w
    = (Throw smtp_down, traced (EvSendMail mail) w) /\
  smtp_down <> Error ("Could not send test email to " +:+ "b@x.com").
Proof.
  intros w mail.
  pose proof (@sendEmail_rejection_escapes (reference (Returned (Rejected smtp_down)))
                mail smtp_down w eq_refl) as [Hsend Hdispatch].
  split; [exact Hsend|]. split; [|discriminate].
  apply Hdispatch. vm_compute. reflexivity.
Defined.

(** * Concrete runs of the further properties *)

(** The preview of an upload for campaign 1 on the sample store. *)
Lemma uploadCompleteOnPreview_deletes_only_campaign_rows_witness :
  let w := world_of sample_store [] in
  checkTemplateKeysMatch [row_alex] (t_params greeting) = None /\
  reference_testHydration [head [row_alex]] (t_body greeting) (t_subject greeting) = None /\
  next_fault w = None /\
  exists w',
    @uploadCompleteOnPreview (reference delivered) sample_tx greeting 1 [row_alex] w
      = (Ok tt, w') /\
    (forall m, In m (email_messages (store w')) <->
               In m (email_messages (store w)) /\ campaignId m <> 1) /\
    campaigns (store w') = campaigns (store w).
Proof.
  intros w.
  assert (Hk : checkTemplateKeysMatch [row_alex] (t_params greeting) = None)
    by (vm_compute; reflexivity).
  assert (Hh : reference_testHydration [head [row_alex]] (t_body greeting)
                 (t_subject greeting) = None) by (vm_compute; reflexivity).
  split; [exact Hk|]. split; [exact Hh|]. split; [reflexivity|].
  destruct (@uploadCompleteOnPreview_deletes_only_campaign_rows (reference delivered)
              sample_tx greeting 1 [row_alex] w Hk Hh eq_refl)
    as (w' & Hrun & Hrows & _ & Hc & _).
  exists w'. auto.
Defined.

(** The preview of a protected upload leaves the message rows in place. *)
Lemma uploadProtectedCompleteOnPreview_keeps_email_messages_witness :
  let w := world_of sample_store [] in
  checkTemplateKeysMatch [protected_row] PROTECTED_CSV_HEADERS = None /\
  reference_testHydration [head [protected_row]] (t_body protected_template)
    (t_subject protected_template) = None /\
  next_fault w = None /\
  exists w',
    @uploadProtectedCompleteOnPreview (reference delivered) sample_tx
      protected_template 1 [protected_row] w = (Ok tt, w') /\
    email_messages (store w') = email_messages (store w).
Proof.
  intros w.
  assert (Hk : checkTemplateKeysMatch [protected_row] PROTECTED_CSV_HEADERS = None)
    by (vm_compute; reflexivity).
  assert (Hh : reference_testHydration [head [protected_row]] (t_body protected_template)
                 (t_subject protected_template) = None) by (vm_compute; reflexivity).
  split; [exact Hk|]. split; [exact Hh|]. split; [reflexivity|].
  destruct (@uploadProtectedCompleteOnPreview_keeps_email_messages (reference delivered)
              sample_tx protected_template 1 [protected_row] w Hk Hh eq_refl)
    as (w' & Hrun & Hrows & _).
  exists w'. auto.
Defined.

(** A re-upload of campaign 1 with the single row of Bo. *)
Lemma preview_then_chunk_replaces_campaign_rows_witness :
  let w := world_of sample_store [] in
  checkTemplateKeysMatch [row_bo] (t_params greeting) = None /\
  reference_testHydration [head [row_bo]] (t_body greeting) (t_subject greeting) = None /\
  first_fault (take 2 (faults w)) = None /\
  exists w',
    (await _ := @uploadCompleteOnPreview (reference delivered) sample_tx greeting 1 [row_bo] in
     uploadCompleteOnChunk sample_tx 1 [row_bo]) w = (Ok tt, w') /\
    filter (fun m => campaignId m = 1) (email_messages (store w')) =
      chunkRecords 1 [row_bo].
Proof.
  intros w.
  assert (Hk : checkTemplateKeysMatch [row_bo] (t_params greeting) = None)
    by (vm_compute; reflexivity).
  assert (Hh : reference_testHydration [head [row_bo]] (t_body greeting)
                 (t_subject greeting) = None) by (vm_compute; reflexivity).
  split; [exact Hk|]. split; [exact Hh|]. split; [reflexivity|].
  destruct (@preview_then_chunk_replaces_campaign_rows (reference delivered)
              sample_tx greeting 1 [row_bo] [row_bo] w Hk Hh eq_refl)
    as (w' & Hrun & Hrows & _).
  exists w'. auto.
Defined.

(** Two chunks of one row against one chunk of two rows. *)
Lemma uploadCompleteOnChunk_chunks_compose_witness :
  let w := world_of empty_store [] in
  first_fault (take 2 (faults w)) = None /\
  exists w1 w2,
    (await _ := uploadCompleteOnChunk sample_tx 1 [row_alex] in
     uploadCompleteOnChunk sample_tx 1 [row_bo]) w = (Ok tt, w1) /\
    uploadCompleteOnChunk sample_tx 1 ([row_alex] ++ [row_bo]) w = (Ok tt, w2) /\
    store w1 = store w2.
Proof.
  intros w. split; [reflexivity|].
  exact (uploadCompleteOnChunk_chunks_compose sample_tx 1 [row_alex] [row_bo] w eq_refl).
Defined.

(** A protected chunk whose bulk insert fails after the protected messages
    were stored. *)
Lemma uploadProtectedCompleteOnChunk_outcomes_witness :
  let w := world_of sample_store [None; Some deadlock] in
  faults w = None :: Some deadlock :: [] /\
  exists w',
    @uploadProtectedCompleteOnChunk (reference delivered) sample_tx 3 [protected_row] w
      = (Throw deadlock, w') /\
    new_events w w' = [EvStoreProtectedMessages 3 [protected_row];
                       EvBulkCreate (reference_protect 3 [protected_row]).2; EvRollback] /\
    store w' = savepoint sample_tx /\ tx_state w' = RolledBack.
Proof.
  intros w. split; [reflexivity|].
  exact (proj1 (proj2 (@uploadProtectedCompleteOnChunk_outcomes (reference delivered)
                         sample_tx 3 [protected_row] w)) deadlock [] eq_refl).
Defined.

(** A transport whose call throws: the exception is caught and dispatch
    fails with the send-failed error. *)
Lemma sendEmail_catches_synchronous_throw_witness :
  let w := world_of sample_store [] in
  let mail := {| recipients := ["b@x.com"]; body := "Hi Alex"; subject := "Welcome";
                 replyTo := Some "ops@x.com" |} in
  @sendEmail (reference (Threw smtp_down)) mail w
    = (Ok None, traced EvLoggerError (traced (EvSendMail mail) w)) /\
  (@sendCampaignMessage (reference (Threw smtp_down)) 1 "b@x.com" w).1
    = Throw (Error ("Could not send test email to " +:+ "b@x.com")).
Proof.
  intros w mail.
  pose proof (@sendEmail_catches_synchronous_throw (reference (Threw smtp_down))
                mail smtp_down w eq_refl) as [Hsend Hdispatch].
  split; [exact Hsend|]. apply Hdispatch. vm_compute. reflexivity.
Defined.

(** The composed mail of the sample campaign carries the reply-to of its
    template. *)
Lemma getCampaignMessage_replyTo_witness :
  let w := world_of sample_store [] in
  let mail := {| recipients := ["b@x.com"]; body := "Hi Alex"; subject := "Welcome";
                 replyTo := Some "ops@x.com" |} in
  @getCampaignMessage (reference delivered) 1 "b@x.com" w = (Ok (Some mail), w) /\
  recipients mail = ["b@x.com"] /\
  exists t,
    reference_getFilledTemplate 1 (store w) = Some t /\
    forall address,
      replyTo mail = Some address <-> t_replyTo t = Some address /\ address <> "".
Proof.
  intros w mail.
  assert (Hrun : @getCampaignMessage (reference delivered) 1 "b@x.com" w
                 = (Ok (Some mail), w)) by (vm_compute; reflexivity).
  split; [exact Hrun|].
  exact (@getCampaignMessage_replyTo (reference delivered) 1 "b@x.com" w mail w Hrun).
Defined.

(** A template that names a placeholder the stored row does not have. *)
Lemma sendCampaignMessage_hydration_failure_witness :
  let template := {| t_campaignId := 1; t_body := "Hi {{name}} of {{zip}}";
                     t_subject := "Welcome"; t_params := ["name"; "zip"];
                     t_replyTo := None |} in
  let w := world_of
             {| campaigns := []; email_templates := [template];
                email_messages := [ {| campaignId := 1; recipient := Some "a@x.com";
                                       params := row_alex |} ];
                protected_messages := [] |} [] in
  reference_getFilledTemplate 1 (store w) = Some template /\
  getParams 1 w = (Ok (Some row_alex), w) /\
  (exists s, reference_template (t_subject template) row_alex = Ok s /\
             reference_template (t_body template) row_alex
               = Throw (TemplateHydrationFailure "zip")) /\
  @getHydratedMessage (reference delivered) 1 w
    = (Throw (TemplateHydrationFailure "zip"), w) /\
  @sendCampaignMessage (reference delivered) 1 "a@x.com" w
    = (Throw (TemplateHydrationFailure "zip"), w).
Proof.
  intros template w.
  assert (Ht : reference_getFilledTemplate 1 (store w) = Some template) by reflexivity.
  assert (Hp : getParams 1 w = (Ok (Some row_alex), w)) by (vm_compute; reflexivity).
  assert (Hthrow : exists s,
             reference_template (t_subject template) row_alex = Ok s /\
             reference_template (t_body template) row_alex
               = Throw (TemplateHydrationFailure "zip")).
  { exists "Welcome". split; vm_compute; reflexivity. }
  split; [exact Ht|]. split; [exact Hp|]. split; [exact Hthrow|].
  exact (@sendCampaignMessage_hydration_failure (reference delivered) 1 "a@x.com" w
           template row_alex (TemplateHydrationFailure "zip") Ht Hp (or_intror Hthrow)).
Defined.

(** An update that fails, and updates for an id that one campaign has and
    for an id that none has. *)
Lemma setCampaignCredential_affected_witness :
  (next_fault (world_of sample_store [Some deadlock]) = Some deadlock /\
   exists w',
     setCampaignCredential 2 (world_of sample_store [Some deadlock]) = (Throw deadlock, w') /\
     store w' = sample_store) /\
  (next_fault (world_of sample_store []) = None /\
   exists w',
     setCampaignCredential 2 (world_of sample_store []) =
       (Ok (length (filter (fun c => c_id c = 2) (campaigns sample_store))), w') /\
     ((forall c, In c (campaigns sample_store) -> c_id c <> 2) -> store w' = sample_store)) /\
  (next_fault (world_of sample_store []) = None /\
   exists w',
     setCampaignCredential 9 (world_of sample_store []) =
       (Ok (length (filter (fun c => c_id c = 9) (campaigns sample_store))), w') /\
     ((forall c, In c (campaigns sample_store) -> c_id c <> 9) -> store w' = sample_store)).
Proof.
  split; [|split].
  - split; [reflexivity|].
    exact (proj1 (setCampaignCredential_affected 2 (world_of sample_store [Some deadlock]))
             deadlock eq_refl).
  - split; [reflexivity|].
    exact (proj2 (setCampaignCredential_affected 2 (world_of sample_store [])) eq_refl).
  - split; [reflexivity|].
    exact (proj2 (setCampaignCredential_affected 9 (world_of sample_store [])) eq_refl).
Defined.

Lemma setCampaignCredential_idempotent_witness :
  let w := world_of sample_store [] in
  first_fault (take 2 (faults w)) = None /\
  exists affected w1 w2,
    setCampaignCredential 2 w = (Ok affected, w1) /\
    setCampaignCredential 2 w1 = (Ok affected, w2) /\
    store w2 = store w1.
Proof.
  intros w. split; [reflexivity|].
  exact (setCampaignCredential_idempotent 2 w eq_refl).
Defined.

(** Campaign 1 is found for its owner before and after its credential is
    bound. *)
Lemma findCampaign_after_setCampaignCredential_witness :
  let w := world_of sample_store [] in
  next_fault w = None /\
  exists affected w' r,
    setCampaignCredential 1 w = (Ok affected, w') /\
    findCampaign 1 7 w = (Ok r, w) /\
    findCampaign 1 7 w' =
      (Ok (match r with
           | Some c =>
               Some (if Z.eqb (c_id c) 1
                     then {| c_id := c_id c; c_userId := c_userId c; c_type := c_type c;
                             c_credName := Some "EMAIL_DEFAULT" |}
                     else c)
           | None => None
           end), w').
Proof.
  intros w. split; [reflexivity|].
  exact (findCampaign_after_setCampaignCredential 1 1 7 w eq_refl).
Defined.

(** A production configuration whose dialect options name the dialect. *)
Lemma sequelizeLoader_options_spread_witness :
  let config := {| SequelizeLoader.IS_PROD := true;
                   SequelizeLoader.databaseUri := "postgres://db";
                   SequelizeLoader.dialectOptions :=
                     {[ "dialect" := SequelizeLoader.JsString "mysql";
                        "ssl" := SequelizeLoader.JsBool true ]};
                   SequelizeLoader.poolOptions := SequelizeLoader.JsObject 0 |} in
  SequelizeLoader.IS_PROD config = true /\
  SequelizeLoader.dialectOptions config !! "dialect" = Some (SequelizeLoader.JsString "mysql") /\
  SequelizeLoader.options config !! "dialect" = Some (SequelizeLoader.JsString "mysql").
Proof.
  intros config.
  assert (Hd : SequelizeLoader.dialectOptions config !! "dialect"
               = Some (SequelizeLoader.JsString "mysql")) by (vm_compute; reflexivity).
  split; [reflexivity|]. split; [exact Hd|].
  exact (proj1 (proj2 (sequelizeLoader_options_spread config)) eq_refl "dialect" _ Hd).
Defined.

(** A synchronisation that fails. *)
Lemma sequelizeLoader_ends_witness :
  let config := {| SequelizeLoader.IS_PROD := false;
                   SequelizeLoader.databaseUri := "postgres://db";
                   SequelizeLoader.dialectOptions := ∅;
                   SequelizeLoader.poolOptions := SequelizeLoader.JsObject 0 |} in
  let answers := {| SequelizeLoader.construct_throws := None;
                    SequelizeLoader.addModels_throws := None;
                    SequelizeLoader.sync_rejects := Some deadlock |} in
  SequelizeLoader.construct_throws answers = None /\
  SequelizeLoader.addModels_throws answers = None /\
  SequelizeLoader.sync_rejects answers = Some deadlock /\
  (SequelizeLoader.sequelizeLoader config answers).1 =
    [SequelizeLoader.NewSequelize "postgres://db" (SequelizeLoader.options config);
     SequelizeLoader.AddModels
       [SequelizeLoader.Credential; SequelizeLoader.JobQueue;
        SequelizeLoader.Campaign; SequelizeLoader.User; SequelizeLoader.Worker;
        SequelizeLoader.EmailMessage; SequelizeLoader.EmailTemplate;
        SequelizeLoader.SmsMessage; SequelizeLoader.SmsTemplate];
     SequelizeLoader.Sync;
     SequelizeLoader.LoggerError "Unable to connect to database: " deadlock;
     SequelizeLoader.ProcessExit 1] /\
  (SequelizeLoader.sequelizeLoader config answers).2 = SequelizeLoader.Exits 1.
Proof.
  intros config answers.
  split; [reflexivity|]. split; [reflexivity|]. split; [reflexivity|].
  exact (proj1 (sequelizeLoader_ends config answers) deadlock eq_refl eq_refl eq_refl).
Defined.

(** The anchor in a table cell. *)
Lemma showPopover_matches_disabled_class_witness :
  let editorState := {| ImageControl.anchorKey := "b1";
                        ImageControl.blockTypes := {[ "b1" := "table-cell" ]} |} in
  ImageControl.blockTypes editorState !! ImageControl.anchorKey editorState
    = Some "table-cell" /\
  exists calls classes,
    ImageControl.showPopover editorState = Some calls /\
    ImageControl.wrapperClassNames editorState = Some classes /\
    (calls = [ImageControl.OnExpandEvent] \/ calls = []) /\
    (calls = [ImageControl.OnExpandEvent] <-> ~ In "rdw-option-disabled" classes) /\
    (In "rdw-option-disabled" classes <->
       "table-cell" = "table-cell" \/ "table-cell" = "unordered-list-item" \/
       "table-cell" = "ordered-list-item") /\
    forall expanded, ImageControl.showsForm expanded editorState = Some expanded.
Proof.
  intros editorState.
  assert (Hb : ImageControl.blockTypes editorState !! ImageControl.anchorKey editorState
               = Some "table-cell") by (vm_compute; reflexivity).
  split; [exact Hb|].
  exact (proj1 (showPopover_matches_disabled_class editorState) "table-cell" Hb).
Defined.
